(** * PeakConverter: genomic to transcriptomic coordinate conversion

    A shallow embedding of [PeakConverter.py] and the verification of its
    coordinate mapping, isoform selection, parameter summary and peak
    remapping.

    Python integers are unbounded and are modelled by [Z]; Python floats are
    the binary64 floats of [PrimFloat]; [deque] objects are lists whose left
    end is the head; dictionaries that are only looked up are [gmap]s, and
    dictionaries that are iterated are association lists kept in insertion
    order.  An uncaught exception or [sys.exit] ends the run and is modelled
    by the [Raise] result. *)

From Stdlib Require Import ZArith PrimFloat Ascii.
From stdpp Require Import base gmap strings list sorting.

Open Scope Z_scope.

(** ** Python runtime *)

Inductive pyexn : Type :=
  | IndexError
  | TypeError
  | ValueError
  | OverflowError
  | SystemExit.

Inductive result (A : Type) : Type :=
  | Ok (a : A)
  | Raise (e : pyexn).

Arguments Ok {A} a.
Arguments Raise {A} e.

(** Sequencing: an exception raised by the first computation propagates.
    The notation [x ← r; k] is the one of [MBind]. *)
Global Instance result_bind : MBind result := λ A B k r,
  match r with
  | Ok a => k a
  | Raise e => Raise e
  end.

(** [for x in xs: body], where the body may raise. *)
Fixpoint for_each {A S : Type} (body : S → A → result S) (xs : list A) (s : S)
  : result S :=
  match xs with
  | [] => Ok s
  | x :: xs' => s' ← body s x ; for_each body xs' s'
  end.

(** [[f(x) for x in xs]], where [f] may raise. *)
Fixpoint map_result {A B : Type} (f : A → result B) (xs : list A)
  : result (list B) :=
  match xs with
  | [] => Ok []
  | x :: xs' => y ← f x ; ys ← map_result f xs' ; Ok (y :: ys)
  end.

(** [sorted(xs)] and [sorted(xs, reverse=True)] on integers. *)
Definition sorted (xs : list Z) : list Z := merge_sort Z.le xs.
Definition sorted_reverse (xs : list Z) : list Z := merge_sort (flip Z.le) xs.

(** [zip] of three sequences: as long as the shortest. *)
Fixpoint zip3 {A B C : Type} (xs : list A) (ys : list B) (zs : list C)
  : list (A * B * C) :=
  match xs, ys, zs with
  | x :: xs', y :: ys', z :: zs' => (x, y, z) :: zip3 xs' ys' zs'
  | _, _, _ => []
  end.

Fixpoint zip4 {A B C D : Type} (xs : list A) (ys : list B) (zs : list C)
  (ws : list D) : list (A * B * C * D) :=
  match xs, ys, zs, ws with
  | x :: xs', y :: ys', z :: zs', w :: ws' => (x, y, z, w) :: zip4 xs' ys' zs' ws'
  | _, _, _, _ => []
  end.

(** ** class Transcript *)

Module Transcript.

Record t : Type := mk {
  id : string;
  uid : Z;
  chrom : string;
  strand : string;
  txs : Z;
  txe : Z;
  cdss : Z;
  cdse : Z;
  genomic_starts : list Z;
  genomic_ends : list Z;
  gid : string;
  trans_starts : list Z;
  trans_ends : list Z;
  type : option string;
  ctis : option Z;
  stop : option Z
}.

Definition with_trans (tx : t) (ts te : list Z) : t :=
  mk (id tx) (uid tx) (chrom tx) (strand tx) (txs tx) (txe tx) (cdss tx)
     (cdse tx) (genomic_starts tx) (genomic_ends tx) (gid tx)
     ts te (type tx) (ctis tx) (stop tx).

Definition with_coding (tx : t) (ty : option string) (c s : option Z) : t :=
  mk (id tx) (uid tx) (chrom tx) (strand tx) (txs tx) (txe tx) (cdss tx)
     (cdse tx) (genomic_starts tx) (genomic_ends tx) (gid tx)
     (trans_starts tx) (trans_ends tx) ty c s.

(** [__len__]: the first element of the ends sorted in descending order. *)
Definition len (tx : t) : result Z :=
  match sorted_reverse (trans_ends tx) with
  | x :: _ => Ok x
  | [] => Raise IndexError
  end.

(** The loop state of [get_transcriptomic_coordinates]: the running
    offset [b] and the two deques. *)
Definition coords_state : Type := Z * list Z * list Z.

(** One iteration; [left] says whether the deques grow by [appendleft]
    (minus strand) or by [append] (plus strand).  [ends] is the list the
    body indexes with the counter of [enumerate]. *)
Definition coords_body (left : bool) (ends : list Z) (index : nat)
  (exon_st : Z) (s : coords_state) : result coords_state :=
  let '(b, ts, te) := s in
  match ends !! index with
  | None => Raise IndexError
  | Some exon_end =>
      let tr_exon_st := b in
      let tr_exon_end := b + exon_end - exon_st in
      let ts' := if left then tr_exon_st :: ts else ts ++ [tr_exon_st] in
      let te' := if left then tr_exon_end :: te else te ++ [tr_exon_end] in
      Ok (b + exon_end - exon_st, ts', te')
  end.

(** [for index, exon_st in enumerate(starts)], from counter [index]. *)
Fixpoint coords_loop (left : bool) (ends : list Z) (index : nat)
  (starts : list Z) (s : coords_state) : result coords_state :=
  match starts with
  | [] => Ok s
  | exon_st :: starts' =>
      s' ← coords_body left ends index exon_st s ;
      coords_loop left ends (S index) starts' s'
  end.

Definition get_transcriptomic_coordinates (tx : t) : result t :=
  if String.eqb (strand tx) "+" then
    '(_, ts, te) ← coords_loop false (genomic_ends tx) 0 (genomic_starts tx)
                     (0, trans_starts tx, trans_ends tx) ;
    Ok (with_trans tx ts te)
  else if String.eqb (strand tx) "-" then
    '(_, ts, te) ← coords_loop true (reverse (genomic_ends tx)) 0
                     (reverse (genomic_starts tx))
                     (0, trans_starts tx, trans_ends tx) ;
    Ok (with_trans tx ts te)
  else Ok tx.

(** One iteration of the loop of [get_start_stop] over
    [zip(genomic_starts, genomic_ends, trans_starts)]; the state is the
    pair of the fields [ctis] and [stop]. *)
Definition start_stop_body (strand : string) (cdss cdse : Z)
  (s : option Z * option Z) (x : Z * Z * Z) : option Z * option Z :=
  let '(exon_start, exon_end, tr_exon_start) := x in
  let '(ctis, stop) := s in
  let '(ctis, stop) :=
    if (exon_start <=? cdss) && (cdss <=? exon_end) then
      if String.eqb strand "+"
      then (Some (tr_exon_start + cdss - exon_start), stop)
      else (ctis, Some (tr_exon_start + exon_end - cdss))
    else (ctis, stop) in
  if (exon_start <=? cdse) && (cdse <=? exon_end) then
    if String.eqb strand "+"
    then (ctis, Some (tr_exon_start + cdse - exon_start))
    else (Some (tr_exon_start + exon_end - cdse), stop)
  else (ctis, stop).

Definition get_start_stop (tx : t) : t :=
  if cdss tx =? cdse tx then
    with_coding tx (Some "non-coding") (Some (-1)) (Some (-1))
  else
    let '(c, s) :=
      fold_left (start_stop_body (strand tx) (cdss tx) (cdse tx))
        (zip3 (genomic_starts tx) (genomic_ends tx) (trans_starts tx))
        (ctis tx, stop tx) in
    with_coding tx (Some "coding") c s.

(** [__init__] *)
Definition init (tx_id chrom strand : string) (tx_start tx_end cds_start
  cds_end : Z) (exon_starts exon_ends : list Z) (gene_id : string) (uid : Z)
  : result t :=
  let self := mk tx_id uid chrom strand tx_start tx_end cds_start cds_end
                 exon_starts exon_ends gene_id [] [] None None None in
  self ← get_transcriptomic_coordinates self ;
  Ok (get_start_stop self).

End Transcript.

(** ** The table array and [build_transcriptome] *)

(** A line of the table array of [read_table_into_array]:
    UID, Tx ID, Chrom, Strand, Tx Start, Tx End, CDS Start, CDS End,
    Exon Starts, Exon Ends, Gene ID. *)
Record array_line : Type := mk_line {
  line_uid : Z;
  line_tx_id : string;
  line_chrom : string;
  line_strand : string;
  line_txStart : Z;
  line_txEnd : Z;
  line_cdsStart : Z;
  line_cdsEnd : Z;
  line_exonStarts : list Z;
  line_exonEnds : list Z;
  line_gene_id : string
}.

Definition build_transcript (l : array_line) : result Transcript.t :=
  Transcript.init (line_tx_id l) (line_chrom l) (line_strand l)
    (line_txStart l) (line_txEnd l) (line_cdsStart l) (line_cdsEnd l)
    (line_exonStarts l) (line_exonEnds l) (line_gene_id l) (line_uid l).

(** Keys of the transcripts dictionary: the unique id is an integer, the
    gene id and the transcript id are strings. *)
Inductive pykey : Type :=
  | KInt (z : Z)
  | KStr (s : string).

Global Instance pykey_eq_dec : EqDecision pykey.
Proof. solve_decision. Defined.

(** A dictionary that is iterated: the association list of its items in
    insertion order, every key once. *)
Fixpoint dict_get {V : Type} (d : list (pykey * V)) (k : pykey) : option V :=
  match d with
  | [] => None
  | (k', v) :: d' => if decide (k' = k) then Some v else dict_get d' k
  end.

(** [d[k] = v]: an existing key keeps its place, a new key goes last. *)
Fixpoint dict_set {V : Type} (d : list (pykey * V)) (k : pykey) (v : V)
  : list (pykey * V) :=
  match d with
  | [] => [(k, v)]
  | (k', v') :: d' =>
      if decide (k' = k) then (k', v) :: d' else (k', v') :: dict_set d' k v
  end.

(** [line[keydict[key]]] for [keydict = {'uid': 0, 'gid': 10, 'txid': 1}]. *)
Definition keydict (key : string) (l : array_line) : pykey :=
  if String.eqb key "uid" then KInt (line_uid l)
  else if String.eqb key "gid" then KStr (line_gene_id l)
  else KStr (line_tx_id l).

Definition build_transcriptome_body (key : string)
  (transcripts : list (pykey * list Transcript.t)) (l : array_line)
  : result (list (pykey * list Transcript.t)) :=
  match dict_get transcripts (keydict key l) with
  | None =>
      tx ← build_transcript l;
      Ok (dict_set transcripts (keydict key l) [tx])
  | Some group =>
      tx ← build_transcript l;
      Ok (dict_set transcripts (keydict key l) (group ++ [tx]))
  end.

Definition build_transcriptome (table_array : list array_line) (key : string)
  : result (list (pykey * list Transcript.t)) :=
  if negb (String.eqb key "gid" || String.eqb key "txid" || String.eqb key "uid")
  then Raise SystemExit
  else for_each (build_transcriptome_body key) table_array [].

(** ** [get_parameters] *)

Inductive pyval : Type :=
  | VInt (z : Z)
  | VStr (s : string)
  | VNone.

Definition of_field (v : option Z) : pyval :=
  match v with
  | Some z => VInt z
  | None => VNone
  end.

(** [v > 0] on a field that may still be [None]. *)
Definition positive_field (v : option Z) : result bool :=
  match v with
  | Some z => Ok (0 <? z)
  | None => Raise TypeError
  end.

(** [xs[i]] with Python's negative indices. *)
Definition getitem (xs : list Z) (i : Z) : result Z :=
  let n := Z.of_nat (length xs) in
  let j := if i <? 0 then i + n else i in
  if (0 <=? j) && (j <? n) then
    match xs !! Z.to_nat j with
    | Some x => Ok x
    | None => Raise IndexError
    end
  else Raise IndexError.

(** A row in the order of [parameter_list]. *)
Record parameters_row : Type := mk_row {
  Tx_ID : string;
  ATG : pyval;
  Stop : pyval;
  Length : Z;
  FirstSpliceSite : pyval;
  LastSpliceSite : pyval;
  UID : Z
}.

(** The builtin [len(tx)]: the value of [__len__], which has to be a
    non-negative integer that fits an index ([sys.maxsize], 64-bit build). *)
Definition sys_maxsize : Z := 2 ^ 63 - 1.

Definition builtin_len (tx : Transcript.t) : result Z :=
  n ← Transcript.len tx;
  if n <? 0 then Raise ValueError
  else if sys_maxsize <? n then Raise OverflowError
  else Ok n.

(** The body of the loop for one transcript on a short chromosome name:
    the four branches of the [if]/[elif] chain, each building [par]. *)
Definition parameters_of (tx : Transcript.t) : result parameters_row :=
  let starts := sorted (Transcript.trans_starts tx) in
  let spliced := (1 <? length starts)%nat in
  spliced_coding ←
    (if spliced return result bool
     then positive_field (Transcript.ctis tx) else Ok false);
  if (spliced_coding : bool) then
    n ← builtin_len tx;
    first ← getitem starts 1;
    last ← getitem starts (-1);
    Ok (mk_row (Transcript.id tx) (of_field (Transcript.ctis tx))
          (of_field (Transcript.stop tx)) n (VInt first) (VInt last)
          (Transcript.uid tx))
  else if spliced then
    n ← builtin_len tx;
    first ← getitem starts 1;
    last ← getitem starts (-1);
    Ok (mk_row (Transcript.id tx) (VStr "-1") (VStr "-1") n (VInt first)
          (VInt last) (Transcript.uid tx))
  else
    coding ← positive_field (Transcript.ctis tx);
    if (coding : bool) then
      n ← builtin_len tx;
      Ok (mk_row (Transcript.id tx) (of_field (Transcript.ctis tx))
            (of_field (Transcript.stop tx)) n (VStr "-1") (VStr "-1")
            (Transcript.uid tx))
    else
      n ← builtin_len tx;
      Ok (mk_row (Transcript.id tx) (VStr "-1") (VStr "-1") n (VStr "-1")
            (VStr "-1") (Transcript.uid tx)).

(** The body of the inner loop: the test on the chromosome name and the
    append to [parameters]. *)
Definition get_parameters_body (parameters : list parameters_row)
  (tx : Transcript.t) : result (list parameters_row) :=
  if (String.length (Transcript.chrom tx) <=? 5)%nat then
    par ← parameters_of tx;
    Ok (parameters ++ [par])
  else Ok parameters.

(** The two loops, which build the list [parameters]. *)
Definition get_parameters_loop (tx_dict : list (pykey * list Transcript.t))
  : result (list parameters_row) :=
  for_each (λ parameters '(tx_class, group),
      for_each get_parameters_body group parameters)
    tx_dict [].

(** After the loops the data frame is made from [parameters] and given the
    seven column names.  A frame made from the empty list has no column,
    and the assignment of the names raises [ValueError]; a frame made from
    rows of seven values takes the names, and its rows are those of
    [parameters] (the frame itself is not modelled). *)
Definition get_parameters (tx_dict : list (pykey * list Transcript.t))
  : result (list parameters_row) :=
  parameters ← get_parameters_loop tx_dict;
  match parameters with
  | [] => Raise ValueError
  | _ :: _ => Ok parameters
  end.

(** ** [gen2tr] *)

(** A line of the temporary conversion BED file: chromosome, exon start,
    exon end, two [*] columns, strand, unique id, transcript-local exon
    start and end. *)
Record bed_key_line : Type := mk_key {
  key_chrom : string;
  key_exon_start : Z;
  key_exon_end : Z;
  key_strand : string;
  key_uid : Z;
  key_tr_exon_st : Z;
  key_tr_exon_end : Z
}.

(** The lines printed for one transcript. *)
Definition print_exons (tx : Transcript.t) (out : list bed_key_line)
  : list bed_key_line :=
  fold_left (λ (out : list bed_key_line)
               '((exon_start, exon_end, tr_exon_st, tr_exon_end) : Z * Z * Z * Z),
      out ++ [mk_key (Transcript.chrom tx) exon_start exon_end
                (Transcript.strand tx) (Transcript.uid tx)
                tr_exon_st tr_exon_end])
    (zip4 (Transcript.genomic_starts tx) (Transcript.genomic_ends tx)
          (Transcript.trans_starts tx) (Transcript.trans_ends tx))
    out.

(** The content of [temp_bed_key] after the first loop of [gen2tr]. *)
Definition gen2tr_bed_key (tx_dict : list (pykey * list Transcript.t))
  : list bed_key_line :=
  fold_left (λ (out : list bed_key_line)
               '((tx_class, group) : pykey * list Transcript.t),
      if (length group =? 1)%nat
      then fold_left (λ out tx, print_exons tx out) group out
      else out)
    tx_dict [].

(** The fields that the second loop of [gen2tr] reads from a line of the
    intersection. *)
Record overlap_line : Type := mk_overlap {
  p_start : Z;
  p_end : Z;
  peak_id : string;
  ex_st : Z;
  ex_end : Z;
  ov_strand : string;
  ov_uid : string;
  tr_exon_start : Z;
  overlap : Z
}.

(** A line of [temp_tr_bed]. *)
Record tr_bed_line : Type := mk_tr {
  tr_uid : string;
  tr_start : Z;
  tr_end : Z;
  tr_peak_id : string
}.

(** What the body of the second loop prints for one line, if anything. *)
Definition remap (r : overlap_line) : option tr_bed_line :=
  if String.eqb (ov_strand r) "+" then
    if p_start r <=? ex_st r then
      Some (mk_tr (ov_uid r) (tr_exon_start r) (tr_exon_start r + overlap r)
              (peak_id r))
    else if p_start r >? ex_st r then
      let gap := p_start r - ex_st r in
      Some (mk_tr (ov_uid r) (tr_exon_start r + gap)
              (tr_exon_start r + gap + overlap r) (peak_id r))
    else None
  else if String.eqb (ov_strand r) "-" then
    if p_end r >=? ex_end r then
      Some (mk_tr (ov_uid r) (tr_exon_start r) (tr_exon_start r + overlap r)
              (peak_id r))
    else if p_end r <? ex_end r then
      let gap := ex_end r - p_end r in
      Some (mk_tr (ov_uid r) (tr_exon_start r + gap)
              (tr_exon_start r + gap + overlap r) (peak_id r))
    else None
  else None.

(** The content of [temp_tr_bed] after the second loop of [gen2tr]. *)
Definition gen2tr_tr_bed (intersection : list overlap_line) : list tr_bed_line :=
  fold_left (λ out r,
      match remap r with
      | Some l => out ++ [l]
      | None => out
      end)
    intersection [].

(** The main program up to the conversion input: the transcriptome of the
    table array is keyed by ['txid'], summarised by [get_parameters], and
    handed to [gen2tr], which writes [temp_bed_key] from it. *)
Definition main_bed_key (tb_array : list array_line) : result (list bed_key_line) :=
  tx_dict ← build_transcriptome tb_array "txid";
  parameters ← get_parameters tx_dict;
  Ok (gen2tr_bed_key tx_dict).

(** ** [read_table_into_array] *)

(** [text.split(sep)] for a separator of one character. *)
Fixpoint str_split (sep : Ascii.ascii) (text : string) : list string :=
  match text with
  | EmptyString => [EmptyString]
  | String a rest =>
      if Ascii.eqb a sep then EmptyString :: str_split sep rest
      else match str_split sep rest with
           | x :: xs => String a x :: xs
           | [] => [String a EmptyString]
           end
  end.

(** [xs[:-1]] *)
Definition all_but_last {A : Type} (xs : list A) : list A :=
  take (length xs - 1) xs.

(** [pattern in text] *)
Fixpoint str_contains (pattern text : string) : bool :=
  String.prefix pattern text
  || match text with
     | EmptyString => false
     | String _ rest => str_contains pattern rest
     end.

(** [split_line[i]] *)
Definition column (split_line : list string) (i : nat) : result string :=
  match split_line !! i with
  | Some x => Ok x
  | None => Raise IndexError
  end.

Section read_table.

(** The builtin [int] on text is not modelled; the functions of this
    section take it as a parameter.  The file is given by the words of its
    first line ([first_line]) and, for every further line, the columns
    that the loop calls [split_line]. *)
Variable int : string → result Z.

(** [[int(a) for a in text.split(',')[:-1]]] *)
Definition int_list (text : string) : result (list Z) :=
  map_result int (all_but_last (str_split ","%char text)).

(** The statements that parse a line and append it to [table_array]; the
    state is [id_counter] and [table_array]. *)
Definition read_table_append (s : Z * list array_line) (split_line : list string)
  : result (Z * list array_line) :=
  let '(id_counter, table_array) := s in
  t3 ← column split_line 3; txStart ← int t3;
  t4 ← column split_line 4; txEnd ← int t4;
  t5 ← column split_line 5; cdsStart ← int t5;
  t6 ← column split_line 6; cdsEnd ← int t6;
  t8 ← column split_line 8; exon_starts ← int_list t8;
  t9 ← column split_line 9; exon_ends ← int_list t9;
  name2 ← column split_line 11;
  match take 3 split_line with
  | [name; chrom; strand] =>
      Ok (id_counter + 1,
          table_array ++ [mk_line id_counter name chrom strand txStart txEnd
                            cdsStart cdsEnd exon_starts exon_ends name2])
  | _ => Raise IndexError
  end.

(** The body of the loop when transcripts are selected. *)
Definition read_table_selected (selected_transcripts : gset string)
  (s : Z * list array_line) (split_line : list string)
  : result (Z * list array_line) :=
  name ← column split_line 0;
  if decide (name ∈ selected_transcripts)
  then read_table_append s split_line
  else Ok s.

(** [if selected_transcripts:] on a set or [None]. *)
Definition truthy (selected_transcripts : option (gset string)) : bool :=
  match selected_transcripts with
  | Some s => negb (bool_decide (s = ∅))
  | None => false
  end.

Definition read_table_into_array (first_line : list string)
  (lines : list (list string)) (selected_transcripts : option (gset string))
  : result (list array_line) :=
  if truthy selected_transcripts then
    word ← column first_line 0;
    if str_contains "bin" word then
      '(_, table_array) ←
        for_each (read_table_selected (default ∅ selected_transcripts)) lines (1, []);
      Ok table_array
    else Raise SystemExit
  else
    word ← column first_line 0;
    if str_contains "bin" word then
      '(_, table_array) ← for_each read_table_append lines (1, []);
      Ok table_array
    else Raise SystemExit.

End read_table.

(** ** [isoform_gene_dict] and [choose_selected_cufflinks] *)

(** The file is given as for [read_table_into_array]: the words of its
    first line and, for every further line, the columns of [split_line]
    (the line without its first column [bin]): 0 name, 1 chrom, 2 strand,
    3 txStart, 4 txEnd, 5 cdsStart, 6 cdsEnd, 7 exonCount, 8 exonStarts,
    9 exonEnds, 10 score, 11 name2. *)

(** The body of the loop: the test [split_line[7] == split_line[6]], then
    the assignment, whose right-hand side [split_line[11]] is evaluated
    before the key [split_line[0]]. *)
Definition isoform_gene_dict_body (gene_dict : gmap string (string * Z))
  (split_line : list string) : result (gmap string (string * Z)) :=
  c7 ← column split_line 7;
  c6 ← column split_line 6;
  if String.eqb c7 c6 then
    name2 ← column split_line 11;
    name ← column split_line 0;
    Ok (<[name := (name2, 0)]> gene_dict)
  else
    name2 ← column split_line 11;
    name ← column split_line 0;
    Ok (<[name := (name2, 1)]> gene_dict).

Definition isoform_gene_dict (first_line : list string)
  (lines : list (list string)) : result (gmap string (string * Z)) :=
  word ← column first_line 0;
  if str_contains "bin" word then
    for_each isoform_gene_dict_body lines ∅
  else Raise SystemExit.

(** The columns of an [isoforms.fpkm_tracking] line that the selector reads. *)
Record fpkm_line : Type := mk_fpkm {
  isoform : string;
  fpkm : float;
  txlength : Z
}.

(** The entry kept per gene: (isoform, fpkm, txlength, coding). *)
Definition iso_entry : Type := string * float * Z * Z.

(** The update of [iso_dict] for an isoform found in the table. *)
Definition update_iso_dict (iso_dict : gmap string iso_entry) (gene : string)
  (coding : Z) (l : fpkm_line) : gmap string iso_entry :=
  match iso_dict !! gene with
  | Some (_, fpkm0, txlength0, coding0) =>
      if PrimFloat.ltb fpkm0 (fpkm l) then
        <[gene := (isoform l, fpkm l, txlength l, coding)]> iso_dict
      else if PrimFloat.eqb (fpkm l) fpkm0 && (coding =? 1) && (coding0 =? 0) then
        <[gene := (isoform l, fpkm l, txlength l, coding)]> iso_dict
      else if PrimFloat.eqb (fpkm l) fpkm0 && (txlength l >? txlength0) then
        <[gene := (isoform l, fpkm l, txlength l, coding)]> iso_dict
      else iso_dict
  | None => <[gene := (isoform l, fpkm l, txlength l, coding)]> iso_dict
  end.

(** The body of the loop over the expression lines; the state is
    [iso_dict] and the counter [c] of isoforms not found. *)
Definition choose_body (gene_dict : gmap string (string * Z))
  (s : gmap string iso_entry * Z) (l : fpkm_line)
  : result (gmap string iso_entry * Z) :=
  let '(iso_dict, c) := s in
  match gene_dict !! isoform l with
  | Some (gene, coding) => Ok (update_iso_dict iso_dict gene coding l, c)
  | None =>
      let c := c + 1 in
      if c >? 5 then Raise SystemExit else Ok (iso_dict, c)
  end.

(** [set(ret_list)] *)
Definition chosen_set (iso_dict : gmap string iso_entry) : gset string :=
  list_to_set ((λ '(gene, (iso, _, _, _)), iso) <$> map_to_list iso_dict).

Definition choose_loop (gene_dict : gmap string (string * Z))
  (lines : list fpkm_line) : result (gmap string iso_entry * Z) :=
  for_each (choose_body gene_dict) lines (∅, 0).

Definition choose_selected_cufflinks (lines : list fpkm_line)
  (gene_dict : gmap string (string * Z)) : result (gset string) :=
  '(iso_dict, _) ← choose_loop gene_dict lines;
  Ok (chosen_set iso_dict).

(** ** Notions used by the specifications *)

(** The exons of a transcript as (start, end) pairs in genomic order. *)
Definition exons (tx : Transcript.t) : list (Z * Z) :=
  zip (Transcript.genomic_starts tx) (Transcript.genomic_ends tx).

(** The summed length of a list of exons. *)
Fixpoint span_sum (l : list (Z * Z)) : Z :=
  match l with
  | [] => 0
  | (s, e) :: l' => (e - s) + span_sum l'
  end.

(** Same number of starts and ends, and no exon ends before it starts. *)
Fixpoint valid_exons (gs ge : list Z) : bool :=
  match gs, ge with
  | [], [] => true
  | s :: gs', e :: ge' => (s <=? e) && valid_exons gs' ge'
  | _, _ => false
  end.

(** Exons in ascending genomic order that do not overlap: every exon starts
    at or after [lo], does not end before it starts, and the next one starts
    at or after its end. *)
Fixpoint ascending_from (lo : Z) (gs ge : list Z) : bool :=
  match gs, ge with
  | [], [] => true
  | s :: gs', e :: ge' => (lo <=? s) && (s <=? e) && ascending_from e gs' ge'
  | _, _ => false
  end.

Definition ascending_exons (gs ge : list Z) : bool :=
  match gs with
  | [] => ascending_from 0 gs ge
  | s :: _ => ascending_from s gs ge
  end.

(** Position [p] lies in the half-open interval number [i] of the intervals
    given by the lists of their starts and ends. *)
Definition covers (starts ends : list Z) (p : Z) (i : nat) : Prop :=
  ∃ s e, starts !! i = Some s ∧ ends !! i = Some e ∧ s ≤ p < e.

(** The intervals tile [lo, hi): every position of [lo, hi) lies in an
    interval and no other position does (no gaps), and no position lies in
    two intervals (no overlaps). *)
Definition tiles (starts ends : list Z) (lo hi : Z) : Prop :=
  (∀ p, lo ≤ p < hi ↔ ∃ i, covers starts ends p i) ∧
  (∀ p i j, covers starts ends p i → covers starts ends p j → i = j).

(** [m] is the maximum of [xs]. *)
Definition is_max (m : Z) (xs : list Z) : Prop :=
  m ∈ xs ∧ Forall (λ x, x ≤ m) xs.

(** The starts and ends that the loop appends when it runs over [l] from
    offset [b]. *)
Fixpoint starts_from (b : Z) (l : list (Z * Z)) : list Z :=
  match l with
  | [] => []
  | (s, e) :: l' => b :: starts_from (b + e - s) l'
  end.

Fixpoint ends_from (b : Z) (l : list (Z * Z)) : list Z :=
  match l with
  | [] => []
  | (s, e) :: l' => (b + e - s) :: ends_from (b + e - s) l'
  end.

(** The minus strand in genomic order: an exon starts where the exons
    after it have ended. *)
Fixpoint starts_back (l : list (Z * Z)) : list Z :=
  match l with
  | [] => []
  | (s, e) :: l' => span_sum l' :: starts_back l'
  end.

Fixpoint ends_back (l : list (Z * Z)) : list Z :=
  match l with
  | [] => []
  | (s, e) :: l' => (span_sum l' + e - s) :: ends_back l'
  end.

(** The local starts and ends of a transcript on strand [strand] with the
    exons [l], in genomic order. *)
Definition local_starts (strand : string) (l : list (Z * Z)) : list Z :=
  if String.eqb strand "+" then starts_from 0 l else starts_back l.

Definition local_ends (strand : string) (l : list (Z * Z)) : list Z :=
  if String.eqb strand "+" then ends_from 0 l else ends_back l.

(** The exons with their local starts, as the loop of [get_start_stop]
    sees them: on the plus strand from offset [b], on the minus strand in
    front of the exons behind. *)
Fixpoint triples_from (b : Z) (l : list (Z * Z)) : list (Z * Z * Z) :=
  match l with
  | [] => []
  | (s, e) :: l' => (s, e, b) :: triples_from (b + e - s) l'
  end.

Fixpoint triples_back (l : list (Z * Z)) : list (Z * Z * Z) :=
  match l with
  | [] => []
  | (s, e) :: l' => (s, e, span_sum l') :: triples_back l'
  end.

(** Ascending exons as pairs. *)
Fixpoint chain (lo : Z) (l : list (Z * Z)) : Prop :=
  match l with
  | [] => True
  | (s, e) :: l' => lo ≤ s ∧ s ≤ e ∧ chain e l'
  end.

(** The genomic position [x] lies in the span of the exon, both ends
    included, as the loop tests it. *)
Definition inside (x : Z) (t : Z * Z * Z) : bool :=
  let '(s, e, _) := t in (s <=? x) && (x <=? e).

(** The local position of [x] counted from the start of the exon (plus
    strand) and from its end (minus strand). *)
Definition from_start (x : Z) (t : Z * Z * Z) : Z :=
  let '(s, _, ls) := t in ls + x - s.

Definition from_end (x : Z) (t : Z * Z * Z) : Z :=
  let '(_, e, ls) := t in ls + e - x.

(** An assignment that is made for the exons that satisfy [P]. *)
Definition pick {A : Type} (P : A → bool) (f : A → Z) (acc : option Z) (x : A)
  : option Z :=
  if P x then Some (f x) else acc.

(** The per-gene choice after the lines [lines], all of which are found in
    the table: the fold of the update alone. *)
Definition winners (gene_dict : gmap string (string * Z)) (lines : list fpkm_line)
  (iso_dict : gmap string iso_entry) : gmap string iso_entry :=
  fold_left (λ iso_dict l,
      match gene_dict !! isoform l with
      | Some (gene, coding) => update_iso_dict iso_dict gene coding l
      | None => iso_dict
      end) lines iso_dict.

Definition absent (gene_dict : gmap string (string * Z)) (lines : list fpkm_line)
  : list fpkm_line :=
  filter (λ l, gene_dict !! isoform l = None) lines.

Definition present (gene_dict : gmap string (string * Z)) (lines : list fpkm_line)
  : list fpkm_line :=
  filter (λ l, is_Some (gene_dict !! isoform l)) lines.

(** [x] is the second-smallest element of [xs]: [xs] is, up to the order,
    some [m ≤ x], then [x], then elements that are at least [x]. *)
Definition is_second_smallest (x : Z) (xs : list Z) : Prop :=
  ∃ m rest, xs ≡ₚ m :: x :: rest ∧ m ≤ x ∧ Forall (λ y, x ≤ y) rest.

(** The transcripts of a dictionary in the order of its iteration. *)
Definition transcripts (tx_dict : list (pykey * list Transcript.t))
  : list Transcript.t :=
  concat (snd <$> tx_dict).

Definition short_chrom (tx : Transcript.t) : Prop :=
  (String.length (Transcript.chrom tx) ≤ 5)%nat.

Global Instance short_chrom_dec tx : Decision (short_chrom tx).
Proof. unfold short_chrom. apply _. Defined.

(** A model that can be summarised: the start codon field is set, there is
    an exon, and the largest local end is a length (not negative, and an
    index-sized integer). *)
Definition summarizable (tx : Transcript.t) : Prop :=
  is_Some (Transcript.ctis tx)
  ∧ ∃ n, is_max n (Transcript.trans_ends tx) ∧ 0 ≤ n ≤ sys_maxsize.

(** The row that the specification gives for a transcript. *)
Definition row_spec (tx : Transcript.t) (row : parameters_row) : Prop :=
  Tx_ID row = Transcript.id tx
  ∧ UID row = Transcript.uid tx
  ∧ Transcript.len tx = Ok (Length row)
  ∧ (if decide (1 < length (Transcript.trans_starts tx))%nat
     then ∃ first last,
            FirstSpliceSite row = VInt first ∧ LastSpliceSite row = VInt last
            ∧ is_second_smallest first (Transcript.trans_starts tx)
            ∧ is_max last (Transcript.trans_starts tx)
     else FirstSpliceSite row = VStr "-1" ∧ LastSpliceSite row = VStr "-1")
  ∧ match Transcript.ctis tx with
    | Some c =>
        if decide (0 < c)
        then ATG row = VInt c ∧ Stop row = of_field (Transcript.stop tx)
        else ATG row = VStr "-1" ∧ Stop row = VStr "-1"
    | None => False
    end.

(** The key of a model in a transcriptome that is keyed by [key]. *)
Definition key_of (key : string) (tx : Transcript.t) : pykey :=
  if String.eqb key "uid" then KInt (Transcript.uid tx)
  else if String.eqb key "gid" then KStr (Transcript.gid tx)
  else KStr (Transcript.id tx).

(** The lines that stand for the exons of a transcript. *)
Definition exon_lines (tx : Transcript.t) : list bed_key_line :=
  (λ '(exon_start, exon_end, tr_exon_st, tr_exon_end),
     mk_key (Transcript.chrom tx) exon_start exon_end (Transcript.strand tx)
       (Transcript.uid tx) tr_exon_st tr_exon_end)
  <$> zip4 (Transcript.genomic_starts tx) (Transcript.genomic_ends tx)
        (Transcript.trans_starts tx) (Transcript.trans_ends tx).

(** The transcript id of [tx] is the id of no other transcript of [txs]. *)
Definition sole_tx_id (txs : list Transcript.t) (tx : Transcript.t) : Prop :=
  length (filter (λ t, Transcript.id t = Transcript.id tx) txs) = 1%nat.

Global Instance sole_tx_id_dec txs tx : Decision (sole_tx_id txs tx).
Proof. unfold sole_tx_id. apply _. Defined.

(** The claim that the unique id decides: for a table array, the exons of
    a transcript of the collection handed to the remapper are all in the
    conversion input exactly when the group of its unique id has exactly one
    member. *)
Definition unique_id_rule (tb_array : list array_line) : Prop :=
  ∀ by_txid by_uid out,
    build_transcriptome tb_array "txid" = Ok by_txid →
    build_transcriptome tb_array "uid" = Ok by_uid →
    main_bed_key tb_array = Ok out →
    ∀ tx, tx ∈ transcripts by_txid →
      (exon_lines tx ⊆ out
       ↔ ∃ group, dict_get by_uid (KInt (Transcript.uid tx)) = Some group
                  ∧ length group = 1%nat).

(** ** Grouping by key *)

Section grouping.

Context {A : Type} (kf : A → pykey).

(** What the loop of [build_transcriptome] does with one more element:
    a group of its own behind the others, or one more member at the end
    of the group of its key. *)
Definition group_add (d : list (pykey * list A)) (x : A)
  : list (pykey * list A) :=
  match dict_get d (kf x) with
  | None => dict_set d (kf x) [x]
  | Some group => dict_set d (kf x) (group ++ [x])
  end.

Definition grouping (xs : list A) : list (pykey * list A) :=
  fold_left group_add xs [].

(** The members of the groups with exactly one member, in the order of
    the dictionary. *)
Definition singles (d : list (pykey * list A)) : list A :=
  concat (filter (λ g, length g = 1%nat) d.*2).

(** [x] is the only element of [xs] with its key. *)
Definition sole (xs : list A) (x : A) : Prop :=
  length (filter (λ y, kf y = kf x) xs) = 1%nat.

Global Instance sole_dec xs x : Decision (sole xs x).
Proof. unfold sole. apply _. Defined.

(** The groups of a dictionary built from [xs]: the keys are distinct,
    the group of a key holds the elements of [xs] with this key, and is
    not empty. *)
Definition grouped (d : list (pykey * list A)) (xs : list A) : Prop :=
  NoDup d.*1
  ∧ (∀ k g, (k, g) ∈ d → g = filter (λ y, kf y = k) xs ∧ g ≠ [])
  ∧ (∀ k, k ∉ d.*1 → filter (λ y, kf y = k) xs = []).

End grouping.

(** ** Example inputs *)

(** The table file of a gene [G] with two isoforms on [chr1], and their
    expression lines.  [A] is coding (CDS 200 to 4800, two exons, 800 long).
    [B] is non-coding (CDS start and CDS end are both its transcript start
    2) and has two exons, 1200 long: the text of its exon count is the text
    of its CDS end, so [isoform_gene_dict] gives it the flag 0.  Both have
    FPKM 5.0. *)
Definition tie_header : list string :=
  ["#bin"; "name"; "chrom"; "strand"; "txStart"; "txEnd"; "cdsStart"; "cdsEnd";
   "exonCount"; "exonStarts"; "exonEnds"; "score"; "name2"].

Definition tie_table : list (list string) :=
  [["A"; "chr1"; "+"; "100"; "5000"; "200"; "4800"; "2"; "100,4700,";
    "600,5000,"; "0"; "G"];
   ["B"; "chr1"; "+"; "2"; "5000"; "2"; "2"; "2"; "2,4400,"; "602,5000,";
    "0"; "G"]].

(** The index that [isoform_gene_dict] returns for this table. *)
Definition tie_genes : gmap string (string * Z) :=
  {["A" := ("G", 1); "B" := ("G", 0)]}.

Definition tie_coding : fpkm_line := mk_fpkm "A" 5.0%float 800.
Definition tie_noncoding : fpkm_line := mk_fpkm "B" 5.0%float 1200.


Definition minus_line : array_line :=
  mk_line 1 "NM_1" "chr1" "-" 100 320 120 310 [100; 300] [150; 320] "G".

(** Two records of the table with the same transcript id. *)
Definition duplicate_table : list array_line :=
  [mk_line 1 "NM_1" "chr1" "+" 100 320 120 310 [100; 300] [150; 320] "G";
   mk_line 2 "NM_1" "chr7" "+" 500 720 520 710 [500; 700] [550; 720] "G"].

(** ** Notions for the further properties *)

(** The genomic intersection of the peak and the exon of an overlap
    record, and the record reporting its length as overlap (what
    [bedtools intersect -wo] appends to a line). *)
Definition intersection_start (r : overlap_line) : Z := Z.max (p_start r) (ex_st r).
Definition intersection_end (r : overlap_line) : Z := Z.min (p_end r) (ex_end r).

Definition exact_overlap (r : overlap_line) : Prop :=
  overlap r = intersection_end r - intersection_start r.

(** The overlap record carries the columns of the conversion line [k]. *)
Definition of_key_line (r : overlap_line) (k : bed_key_line) : Prop :=
  ex_st r = key_exon_start k ∧ ex_end r = key_exon_end k
  ∧ ov_strand r = key_strand k ∧ tr_exon_start r = key_tr_exon_st k.

(** The model of [minus_line], its conversion line for the first exon, and
    an overlap record of a peak (120, 400) with that exon. *)
Definition minus_tx : Transcript.t :=
  Transcript.mk "NM_1" 1 "chr1" "-" 100 320 120 310 [100; 300] [150; 320] "G"
    [20; 0] [70; 20] (Some "coding") (Some 10) (Some 50).

Definition minus_key : bed_key_line := mk_key "chr1" 100 150 "-" 1 20 70.

Definition minus_peak : overlap_line :=
  mk_overlap 120 400 "peak_3" 100 150 "-" "1" 20 30.

(** The entry that a row of the table gives its transcript id. *)
Definition gene_entry (split_line : list string) : option (string * Z) :=
  c7 ← split_line !! 7%nat;
  c6 ← split_line !! 6%nat;
  name2 ← split_line !! 11%nat;
  Some (name2, if String.eqb c7 c6 then 0 else 1).

(** The gene of an expression line, if its isoform is in the table. *)
Definition line_gene (gene_dict : gmap string (string * Z)) (l : fpkm_line)
  : option string :=
  fst <$> gene_dict !! isoform l.

(** The entry [e] kept for gene [g] is an expression line of [lines] whose
    isoform the table puts in [g], with the coding flag of the table. *)
Definition entry_of (gene_dict : gmap string (string * Z))
  (lines : list fpkm_line) (g : string) (e : iso_entry) : Prop :=
  ∃ l c, l ∈ lines ∧ gene_dict !! isoform l = Some (g, c)
         ∧ e = (isoform l, fpkm l, txlength l, c).

(** Every entry of [iso_dict] is a line of its gene, and every gene of a
    line of [lines] has an entry. *)
Definition chosen_from (gene_dict : gmap string (string * Z))
  (lines : list fpkm_line) (iso_dict : gmap string iso_entry) : Prop :=
  (∀ g e, iso_dict !! g = Some e → entry_of gene_dict lines g e)
  ∧ (∀ l g c, l ∈ lines → gene_dict !! isoform l = Some (g, c) →
       is_Some (iso_dict !! g)).

(** Some exon span contains the genomic position [x], ends included. *)
Definition in_some_exon (x : Z) (gs ge : list Z) : bool :=
  existsb (λ '(s, e), (s <=? x) && (x <=? e)) (zip gs ge).

(** A line of the table array that the summary can handle: plus or minus
    strand, at least one exon, ascending exons that do not overlap, a total
    exon length that is an index-sized integer, and, unless CDS start and
    CDS end are equal, both of them in the span of some exon. *)
Definition well_formed_line (l : array_line) : bool :=
  (String.eqb (line_strand l) "+" || String.eqb (line_strand l) "-")
  && ascending_exons (line_exonStarts l) (line_exonEnds l)
  && (0 <? length (line_exonStarts l))%nat
  && (span_sum (zip (line_exonStarts l) (line_exonEnds l)) <=? sys_maxsize)
  && ((line_cdsStart l =? line_cdsEnd l)
      || (in_some_exon (line_cdsStart l) (line_exonStarts l) (line_exonEnds l)
          && in_some_exon (line_cdsEnd l) (line_exonStarts l) (line_exonEnds l))).

Definition short_line (l : array_line) : Prop :=
  (String.length (line_chrom l) ≤ 5)%nat.

Global Instance short_line_dec l : Decision (short_line l).
Proof. unfold short_line. apply _. Defined.

(** The keys that [build_transcriptome] accepts. *)
Definition valid_key (key : string) : Prop :=
  key = "gid" ∨ key = "txid" ∨ key = "uid".

(** The exons in the order of transcription: genomic order on the plus
    strand, the reverse on the minus strand. *)
Definition transcribed (strand : string) (E : list (Z * Z)) : list (Z * Z) :=
  if String.eqb strand "+" then E else reverse E.

(** A parser of plain decimal text, for the examples of
    [read_table_into_array]. *)
Fixpoint decimal_digits (text : string) (acc : Z) : result Z :=
  match text with
  | EmptyString => Ok acc
  | String a rest =>
      let n := Z.of_nat (nat_of_ascii a) in
      if (48 <=? n) && (n <=? 57)
      then decimal_digits rest (10 * acc + (n - 48))
      else Raise ValueError
  end.

Definition decimal (text : string) : result Z :=
  match text with
  | EmptyString => Raise ValueError
  | _ => decimal_digits text 0
  end.

(** The columns of two lines of a table file (the bin column dropped). *)
Definition table_lines : list (list string) :=
  [["NM_1"; "chr1"; "+"; "100"; "320"; "120"; "310"; "2"; "100,300,";
    "150,320,"; "0"; "G"];
   ["NM_2"; "chr7"; "-"; "500"; "720"; "520"; "710"; "2"; "500,700,";
    "550,720,"; "0"; "H"]].

(** The rows that a loop appends from counter [c]: their transcript ids
    are [names], and row number [i] has the unique id [c + i]. *)
Definition appended (c : Z) (names : list string) (rows : list array_line) : Prop :=
  line_tx_id <$> rows = names
  ∧ ∀ i row, rows !! i = Some row → line_uid row = c + Z.of_nat i.

(** The same transcript seen from the other strand: genomic positions are
    mirrored at [M / 2], which reverses the exon order and swaps the starts
    with the ends, and the strand is flipped. *)
Definition mirror_pair (M : Z) (x : Z * Z) : Z * Z := (M - x.2, M - x.1).

Definition mirror_triple (M : Z) (t : Z * Z * Z) : Z * Z * Z :=
  let '(s, e, ls) := t in (M - e, M - s, ls).

Definition mirror_line (M : Z) (l : array_line) : array_line :=
  mk_line (line_uid l) (line_tx_id l) (line_chrom l)
    (if String.eqb (line_strand l) "+" then "-" else "+")
    (M - line_txEnd l) (M - line_txStart l)
    (M - line_cdsEnd l) (M - line_cdsStart l)
    (reverse ((λ e, M - e) <$> line_exonEnds l))
    (reverse ((λ s, M - s) <$> line_exonStarts l))
    (line_gene_id l).

(** ** Examples *)

Example plus_example :
  Transcript.init "NM_1" "chr1" "+" 100 320 120 310 [100; 300] [150; 320] "G" 1
  = Ok (Transcript.mk "NM_1" 1 "chr1" "+" 100 320 120 310 [100; 300] [150; 320]
          "G" [0; 50] [50; 70] (Some "coding") (Some 20) (Some 60)).
Proof. reflexivity. Qed.

Example minus_example :
  Transcript.init "NM_1" "chr1" "-" 100 320 120 310 [100; 300] [150; 320] "G" 1
  = Ok (Transcript.mk "NM_1" 1 "chr1" "-" 100 320 120 310 [100; 300] [150; 320]
          "G" [20; 0] [70; 20] (Some "coding") (Some 10) (Some 50)).
Proof. reflexivity. Qed.

Example len_example :
  Transcript.len (Transcript.mk "NM_1" 1 "chr1" "-" 100 320 120 310 [100; 300]
                    [150; 320] "G" [20; 0] [70; 20] None None None) = Ok 70.
Proof. vm_compute. reflexivity. Qed.

(** ** The running offsets of [get_transcriptomic_coordinates] *)

Lemma bind_Ok {A B : Type} (a : A) (k : A → result B) : (Ok a ≫= k) = k a.
Proof. reflexivity. Qed.

Lemma span_sum_app l1 l2 : span_sum (l1 ++ l2) = span_sum l1 + span_sum l2.
Proof. induction l1 as [|[s e] l1 IH]; simpl; lia. Qed.

Lemma span_sum_reverse l : span_sum (reverse l) = span_sum l.
Proof.
  induction l as [|[s e] l IH]; [done|].
  rewrite reverse_cons, span_sum_app, IH. simpl. lia.
Qed.

Lemma starts_from_app b l1 l2 :
  starts_from b (l1 ++ l2) = starts_from b l1 ++ starts_from (b + span_sum l1) l2.
Proof.
  revert b. induction l1 as [|[s e] l1 IH]; intros b; simpl.
  - by rewrite Z.add_0_r.
  - rewrite IH. do 3 f_equal. lia.
Qed.

Lemma ends_from_app b l1 l2 :
  ends_from b (l1 ++ l2) = ends_from b l1 ++ ends_from (b + span_sum l1) l2.
Proof.
  revert b. induction l1 as [|[s e] l1 IH]; intros b; simpl.
  - by rewrite Z.add_0_r.
  - rewrite IH. do 3 f_equal. lia.
Qed.

Lemma starts_back_reverse l : reverse (starts_from 0 (reverse l)) = starts_back l.
Proof.
  induction l as [|[s e] l IH]; [done|].
  rewrite reverse_cons, starts_from_app, reverse_app, IH. simpl.
  by rewrite span_sum_reverse.
Qed.

Lemma ends_back_reverse l : reverse (ends_from 0 (reverse l)) = ends_back l.
Proof.
  induction l as [|[s e] l IH]; [done|].
  rewrite reverse_cons, ends_from_app, reverse_app, IH. simpl.
  rewrite span_sum_reverse. do 2 f_equal.
Qed.

Lemma zip_reverse {A B : Type} (xs : list A) (ys : list B) :
  length xs = length ys → zip (reverse xs) (reverse ys) = reverse (zip xs ys).
Proof.
  revert ys. induction xs as [|x xs IH]; intros [|y ys] Hlen; try done.
  simpl in Hlen. rewrite !reverse_cons. simpl. rewrite reverse_cons.
  rewrite zip_with_app by (rewrite !length_reverse; lia).
  rewrite IH by lia. done.
Qed.

Lemma valid_exons_length gs ge : valid_exons gs ge = true → length gs = length ge.
Proof.
  revert ge. induction gs as [|s gs IH]; intros [|e ge] H; try done.
  simpl in H. apply andb_true_iff in H as [_ H]. simpl. f_equal. auto.
Qed.

Lemma valid_exons_Forall gs ge :
  valid_exons gs ge = true → Forall (λ x, x.1 ≤ x.2) (zip gs ge).
Proof.
  revert ge. induction gs as [|s gs IH]; intros [|e ge] H; try done.
  simpl in H. apply andb_true_iff in H as [Hle H]. simpl.
  constructor; [simpl; lia | auto].
Qed.

Lemma ascending_from_valid lo gs ge :
  ascending_from lo gs ge = true → valid_exons gs ge = true.
Proof.
  revert lo ge. induction gs as [|s gs IH]; intros lo [|e ge] H; try done.
  simpl in *. apply andb_true_iff in H as [H1 H2].
  apply andb_true_iff in H1 as [_ H1]. rewrite H1. simpl. eauto.
Qed.

Lemma ascending_exons_valid gs ge :
  ascending_exons gs ge = true → valid_exons gs ge = true.
Proof. destruct gs; apply ascending_from_valid. Qed.

(** The loop on the plus strand, started in the middle of the ends. *)
Lemma coords_loop_append starts es pre b ts te :
  length starts = length es →
  Transcript.coords_loop false (pre ++ es) (length pre) starts (b, ts, te)
  = Ok (b + span_sum (zip starts es),
        ts ++ starts_from b (zip starts es),
        te ++ ends_from b (zip starts es)).
Proof.
  revert es pre b ts te.
  induction starts as [|s starts IH]; intros [|e es] pre b ts te Hlen; try done.
  - simpl. by rewrite Z.add_0_r, !app_nil_r.
  - simpl in Hlen. simpl. unfold Transcript.coords_body.
    rewrite list_lookup_middle by done. rewrite bind_Ok.
    replace (S (length pre)) with (length (pre ++ [e]))
      by (rewrite length_app; simpl; lia).
    rewrite (cons_middle e pre es), app_assoc.
    rewrite IH by lia. rewrite <- !app_assoc. simpl.
    do 3 f_equal. lia.
Qed.

(** The loop on the minus strand, on the lists as the loop sees them. *)
Lemma coords_loop_appendleft starts es pre b ts te :
  length starts = length es →
  Transcript.coords_loop true (pre ++ es) (length pre) starts (b, ts, te)
  = Ok (b + span_sum (zip starts es),
        reverse (starts_from b (zip starts es)) ++ ts,
        reverse (ends_from b (zip starts es)) ++ te).
Proof.
  revert es pre b ts te.
  induction starts as [|s starts IH]; intros [|e es] pre b ts te Hlen; try done.
  - simpl. by rewrite Z.add_0_r.
  - simpl in Hlen. simpl. unfold Transcript.coords_body.
    rewrite list_lookup_middle by done. rewrite bind_Ok.
    replace (S (length pre)) with (length (pre ++ [e]))
      by (rewrite length_app; simpl; lia).
    rewrite (cons_middle e pre es), app_assoc.
    rewrite IH by lia. rewrite !reverse_cons, <- !app_assoc. simpl.
    do 3 f_equal. lia.
Qed.

Lemma starts_from_lookup b l i :
  (i < length l)%nat → starts_from b l !! i = Some (b + span_sum (take i l)).
Proof.
  revert b i. induction l as [|[s e] l IH]; intros b i Hi; simpl in Hi; [lia|].
  destruct i as [|i]; simpl.
  - f_equal. lia.
  - rewrite IH by lia. f_equal. lia.
Qed.

Lemma ends_from_lookup b l i :
  (i < length l)%nat → ends_from b l !! i = Some (b + span_sum (take (S i) l)).
Proof.
  revert b i. induction l as [|[s e] l IH]; intros b i Hi; simpl in Hi; [lia|].
  destruct i as [|i].
  - simpl. destruct l; simpl; f_equal; lia.
  - change (ends_from (b + e - s) l !! i
            = Some (b + span_sum ((s, e) :: take (S i) l))).
    rewrite IH by lia. f_equal. change (span_sum ((s, e) :: take (S i) l))
      with ((e - s) + span_sum (take (S i) l)). lia.
Qed.

Lemma starts_back_lookup l i :
  (i < length l)%nat → starts_back l !! i = Some (span_sum (drop (S i) l)).
Proof.
  revert i. induction l as [|[s e] l IH]; intros i Hi; simpl in Hi; [lia|].
  destruct i as [|i]; simpl.
  - by rewrite drop_0.
  - apply IH. lia.
Qed.

Lemma ends_back_lookup l i :
  (i < length l)%nat → ends_back l !! i = Some (span_sum (drop i l)).
Proof.
  revert i. induction l as [|[s e] l IH]; intros i Hi; simpl in Hi; [lia|].
  destruct i as [|i]; simpl.
  - f_equal. lia.
  - apply IH. lia.
Qed.

Lemma length_starts_from b l : length (starts_from b l) = length l.
Proof. revert b. induction l as [|[s e] l IH]; intros b; simpl; auto. Qed.

Lemma length_ends_from b l : length (ends_from b l) = length l.
Proof. revert b. induction l as [|[s e] l IH]; intros b; simpl; auto. Qed.

Lemma length_starts_back l : length (starts_back l) = length l.
Proof. induction l as [|[s e] l IH]; simpl; auto. Qed.

Lemma length_ends_back l : length (ends_back l) = length l.
Proof. induction l as [|[s e] l IH]; simpl; auto. Qed.

Lemma span_sum_take_S l i s e :
  l !! i = Some (s, e) → span_sum (take (S i) l) = span_sum (take i l) + (e - s).
Proof.
  intros H. rewrite (take_S_r l i (s, e)) by done.
  rewrite span_sum_app. simpl. lia.
Qed.

Lemma span_sum_drop l i s e :
  l !! i = Some (s, e) → span_sum (drop i l) = span_sum (drop (S i) l) + (e - s).
Proof.
  intros H. rewrite (drop_S l (s, e) i) by done. simpl. lia.
Qed.

(** What the constructor computes: the coordinates of the two strands and
    then the coding landmarks. *)
Lemma coordinates_plus tx :
  Transcript.strand tx = "+" →
  Transcript.trans_starts tx = [] → Transcript.trans_ends tx = [] →
  length (Transcript.genomic_starts tx) = length (Transcript.genomic_ends tx) →
  Transcript.get_transcriptomic_coordinates tx
  = Ok (Transcript.with_trans tx (starts_from 0 (exons tx)) (ends_from 0 (exons tx))).
Proof.
  intros Hs Hts Hte Hlen. unfold Transcript.get_transcriptomic_coordinates.
  rewrite Hs, Hts, Hte. simpl.
  pose proof (coords_loop_append (Transcript.genomic_starts tx)
                (Transcript.genomic_ends tx) [] 0 [] [] Hlen) as H.
  simpl in H. rewrite H. done.
Qed.

Lemma coordinates_minus tx :
  Transcript.strand tx = "-" →
  Transcript.trans_starts tx = [] → Transcript.trans_ends tx = [] →
  length (Transcript.genomic_starts tx) = length (Transcript.genomic_ends tx) →
  Transcript.get_transcriptomic_coordinates tx
  = Ok (Transcript.with_trans tx (starts_back (exons tx)) (ends_back (exons tx))).
Proof.
  intros Hs Hts Hte Hlen. unfold Transcript.get_transcriptomic_coordinates.
  rewrite Hs, Hts, Hte. simpl.
  pose proof (coords_loop_appendleft (reverse (Transcript.genomic_starts tx))
                (reverse (Transcript.genomic_ends tx)) [] 0 [] []) as H.
  simpl in H. rewrite H by (rewrite !length_reverse; done).
  rewrite zip_reverse by done. simpl.
  rewrite !app_nil_r, starts_back_reverse, ends_back_reverse. done.
Qed.

Lemma get_start_stop_trans tx :
  Transcript.trans_starts (Transcript.get_start_stop tx) = Transcript.trans_starts tx
  ∧ Transcript.trans_ends (Transcript.get_start_stop tx) = Transcript.trans_ends tx.
Proof.
  unfold Transcript.get_start_stop.
  destruct (Transcript.cdss tx =? Transcript.cdse tx); [done|].
  by destruct (fold_left _ _ _).
Qed.

Lemma build_transcript_coordinates l :
  line_strand l = "+" ∨ line_strand l = "-" →
  length (line_exonStarts l) = length (line_exonEnds l) →
  ∃ tx, build_transcript l = Ok tx
    ∧ Transcript.trans_starts tx
      = local_starts (line_strand l) (zip (line_exonStarts l) (line_exonEnds l))
    ∧ Transcript.trans_ends tx
      = local_ends (line_strand l) (zip (line_exonStarts l) (line_exonEnds l)).
Proof.
  intros Hs Hlen. unfold build_transcript, Transcript.init.
  unfold local_starts, local_ends.
  destruct Hs as [Hs|Hs]; rewrite Hs.
  - rewrite coordinates_plus by done. rewrite bind_Ok.
    eexists; split; [done|]. by rewrite !(proj1 (get_start_stop_trans _)),
      !(proj2 (get_start_stop_trans _)).
  - rewrite coordinates_minus by done. rewrite bind_Ok.
    eexists; split; [done|]. by rewrite !(proj1 (get_start_stop_trans _)),
      !(proj2 (get_start_stop_trans _)).
Qed.

(** ** Tilings *)

Lemma covers_head s e ts te p : covers (s :: ts) (e :: te) p 0 ↔ s ≤ p < e.
Proof.
  unfold covers. simpl. split.
  - intros (s' & e' & [= <-] & [= <-] & H). done.
  - intros H. eauto.
Qed.

Lemma covers_tail s e ts te p i :
  covers (s :: ts) (e :: te) p (S i) ↔ covers ts te p i.
Proof. done. Qed.

Lemma tiles_nil lo : tiles [] [] lo lo.
Proof.
  split.
  - intros p. split; [lia|]. intros (i & s & e & H & _). done.
  - intros p i j (s & e & H & _). done.
Qed.

(** An interval put below a tiling. *)
Lemma tiles_cons_low ts te lo m hi :
  lo ≤ m → m ≤ hi → tiles ts te m hi → tiles (lo :: ts) (m :: te) lo hi.
Proof.
  intros Hlo Hhi [Hcov Huniq]. split.
  - intros p. split.
    + intros Hp. destruct (decide (p < m)) as [Hlt|Hge].
      * exists 0%nat. apply covers_head. lia.
      * destruct (proj1 (Hcov p)) as [i Hi]; [lia|].
        exists (S i). by apply covers_tail.
    + intros [[|i] Hi].
      * apply covers_head in Hi. lia.
      * apply covers_tail in Hi.
        assert (m ≤ p < hi) by (apply Hcov; eauto). lia.
  - intros p [|i] [|j] Hi Hj; [done| | |].
    + apply covers_head in Hi. apply covers_tail in Hj.
      assert (m ≤ p < hi) by (apply Hcov; eauto). lia.
    + apply covers_head in Hj. apply covers_tail in Hi.
      assert (m ≤ p < hi) by (apply Hcov; eauto). lia.
    + f_equal. apply (Huniq p); [exact Hi | exact Hj].
Qed.

(** An interval put above a tiling. *)
Lemma tiles_cons_high ts te lo m hi :
  lo ≤ m → m ≤ hi → tiles ts te lo m → tiles (m :: ts) (hi :: te) lo hi.
Proof.
  intros Hlo Hhi [Hcov Huniq]. split.
  - intros p. split.
    + intros Hp. destruct (decide (p < m)) as [Hlt|Hge].
      * destruct (proj1 (Hcov p)) as [i Hi]; [lia|].
        exists (S i). by apply covers_tail.
      * exists 0%nat. apply covers_head. lia.
    + intros [[|i] Hi].
      * apply covers_head in Hi. lia.
      * apply covers_tail in Hi.
        assert (lo ≤ p < m) by (apply Hcov; eauto). lia.
  - intros p [|i] [|j] Hi Hj; [done| | |].
    + apply covers_head in Hi. apply covers_tail in Hj.
      assert (lo ≤ p < m) by (apply Hcov; eauto). lia.
    + apply covers_head in Hj. apply covers_tail in Hi.
      assert (lo ≤ p < m) by (apply Hcov; eauto). lia.
    + f_equal. apply (Huniq p); [exact Hi | exact Hj].
Qed.

Lemma span_sum_nonneg l : Forall (λ x, x.1 ≤ x.2) l → 0 ≤ span_sum l.
Proof.
  induction 1 as [|[s e] l Hx _ IH]; simpl in *; lia.
Qed.

Lemma tiles_from b l :
  Forall (λ x, x.1 ≤ x.2) l →
  tiles (starts_from b l) (ends_from b l) b (b + span_sum l).
Proof.
  intros Hl. revert b.
  induction Hl as [|[s e] l Hx Hl IH]; intros b; simpl in *.
  - rewrite Z.add_0_r. apply tiles_nil.
  - pose proof (span_sum_nonneg l Hl).
    apply tiles_cons_low; [lia|lia|].
    replace (b + (e - s + span_sum l)) with (b + e - s + span_sum l) by lia.
    apply IH.
Qed.

Lemma tiles_back l :
  Forall (λ x, x.1 ≤ x.2) l →
  tiles (starts_back l) (ends_back l) 0 (span_sum l).
Proof.
  induction 1 as [|[s e] l Hx Hl IH]; simpl in *.
  - apply tiles_nil.
  - pose proof (span_sum_nonneg l Hl).
    replace (e - s + span_sum l) with (span_sum l + e - s) by lia.
    apply tiles_cons_high; [lia|lia|done].
Qed.

(** ** The transcript length *)

Lemma ends_from_bound b l :
  Forall (λ x, x.1 ≤ x.2) l → Forall (λ x, x ≤ b + span_sum l) (ends_from b l).
Proof.
  intros Hl. revert b.
  induction Hl as [|[s e] l Hx Hl IH]; intros b; simpl in *; [done|].
  pose proof (span_sum_nonneg l Hl). constructor; [lia|].
  replace (b + (e - s + span_sum l)) with (b + e - s + span_sum l) by lia.
  apply IH.
Qed.

Lemma ends_from_total b l : l ≠ [] → b + span_sum l ∈ ends_from b l.
Proof.
  revert b. induction l as [|[s e] l IH]; intros b Hne; [done|]. simpl.
  destruct l as [|x l].
  - simpl. replace (b + (e - s + 0)) with (b + e - s) by lia. left.
  - right. replace (b + (e - s + span_sum (x :: l)))
      with (b + e - s + span_sum (x :: l)) by lia.
    by apply IH.
Qed.

Lemma ends_back_bound l :
  Forall (λ x, x.1 ≤ x.2) l → Forall (λ x, x ≤ span_sum l) (ends_back l).
Proof.
  induction 1 as [|[s e] l Hx Hl IH]; simpl in *; [done|].
  pose proof (span_sum_nonneg l Hl). constructor; [lia|].
  eapply Forall_impl; [exact IH|]. simpl. intros; lia.
Qed.

Lemma ends_back_total l : l ≠ [] → span_sum l ∈ ends_back l.
Proof.
  destruct l as [|[s e] l]; intros Hne; [done|]. simpl.
  replace (e - s + span_sum l) with (span_sum l + e - s) by lia. left.
Qed.

Lemma is_max_unique m n xs : is_max m xs → is_max n xs → m = n.
Proof.
  intros [Hm Hm'] [Hn Hn']. rewrite Forall_forall in Hm', Hn'.
  apply Hn' in Hm. apply Hm' in Hn. lia.
Qed.

Global Instance flip_le_total : Total (flip Z.le).
Proof. intros x y. unfold flip. lia. Qed.

Lemma sorted_reverse_head xs :
  xs ≠ [] → ∃ m rest, sorted_reverse xs = m :: rest ∧ is_max m xs.
Proof.
  intros Hne. unfold sorted_reverse.
  pose proof (merge_sort_Permutation (flip Z.le) xs) as Hperm.
  pose proof (StronglySorted_merge_sort (flip Z.le) xs) as Hsorted.
  destruct (merge_sort (flip Z.le) xs) as [|m rest].
  - apply Permutation_nil_l in Hperm. done.
  - exists m, rest. split; [done|]. split.
    + rewrite <- Hperm. left.
    + rewrite <- Hperm. apply StronglySorted_inv in Hsorted as [_ Hall].
      constructor; [lia|]. eapply Forall_impl; [exact Hall|]. done.
Qed.

Lemma len_is_max tx :
  Transcript.trans_ends tx ≠ [] →
  ∃ n, Transcript.len tx = Ok n ∧ is_max n (Transcript.trans_ends tx).
Proof.
  intros Hne. destruct (sorted_reverse_head _ Hne) as (m & rest & Hs & Hm).
  exists m. unfold Transcript.len. by rewrite Hs.
Qed.

(** The constructor copies the columns of the line into the model. *)
Lemma build_transcript_fields l tx :
  build_transcript l = Ok tx →
  Transcript.id tx = line_tx_id l ∧ Transcript.uid tx = line_uid l
  ∧ Transcript.gid tx = line_gene_id l ∧ Transcript.chrom tx = line_chrom l
  ∧ Transcript.strand tx = line_strand l
  ∧ Transcript.cdss tx = line_cdsStart l ∧ Transcript.cdse tx = line_cdsEnd l
  ∧ Transcript.genomic_starts tx = line_exonStarts l
  ∧ Transcript.genomic_ends tx = line_exonEnds l.
Proof.
  unfold build_transcript, Transcript.init,
    Transcript.get_transcriptomic_coordinates. simpl.
  destruct (String.eqb (line_strand l) "+").
  { destruct (Transcript.coords_loop _ _ _ _ _) as [[[b ts] te]|]; [|done].
    rewrite !bind_Ok. intros [= <-]. unfold Transcript.get_start_stop. simpl.
    destruct (_ =? _); [done|]. by destruct (fold_left _ _ _). }
  destruct (String.eqb (line_strand l) "-").
  { destruct (Transcript.coords_loop _ _ _ _ _) as [[[b ts] te]|]; [|done].
    rewrite !bind_Ok. intros [= <-]. unfold Transcript.get_start_stop. simpl.
    destruct (_ =? _); [done|]. by destruct (fold_left _ _ _). }
  rewrite bind_Ok. intros [= <-]. unfold Transcript.get_start_stop. simpl.
  destruct (_ =? _); [done|]. by destruct (fold_left _ _ _).
Qed.

(** ** Coordinate coverage and index alignment *)

(** C1. For a transcript built on either strand from a non-empty exon list
    in which no exon ends before it starts (which ascending, non-overlapping
    half-open exons satisfy), the length operation returns a value [n] that
    is the maximum transcript-local exon end, and the transcript-local exon
    intervals tile [0, n): every position of [0, n) lies in exactly one of
    them and none of them reaches outside. *)
Theorem coordinate_coverage (l : array_line) :
  line_strand l = "+" ∨ line_strand l = "-" →
  valid_exons (line_exonStarts l) (line_exonEnds l) = true →
  line_exonStarts l ≠ [] →
  ∃ tx n, build_transcript l = Ok tx
    ∧ Transcript.len tx = Ok n
    ∧ is_max n (Transcript.trans_ends tx)
    ∧ tiles (Transcript.trans_starts tx) (Transcript.trans_ends tx) 0 n.
Proof.
  intros Hstrand Hvalid Hne.
  pose proof (valid_exons_length _ _ Hvalid) as Hlen.
  pose proof (valid_exons_Forall _ _ Hvalid) as Hall.
  set (E := zip (line_exonStarts l) (line_exonEnds l)) in *.
  assert (HE : E ≠ []).
  { subst E. destruct (line_exonStarts l), (line_exonEnds l); done. }
  destruct (build_transcript_coordinates l Hstrand Hlen) as (tx & Htx & Hts & Hte).
  fold E in Hts, Hte.
  assert (Hmax : is_max (span_sum E) (Transcript.trans_ends tx)
                 ∧ tiles (Transcript.trans_starts tx) (Transcript.trans_ends tx)
                     0 (span_sum E)).
  { rewrite Hts, Hte. unfold local_starts, local_ends.
    destruct Hstrand as [-> | ->]; simpl.
    - split; [split|].
      + apply (ends_from_total 0 E HE).
      + apply (ends_from_bound 0 E Hall).
      + apply (tiles_from 0 E Hall).
    - split; [split|].
      + by apply ends_back_total.
      + by apply ends_back_bound.
      + by apply tiles_back. }
  destruct Hmax as [Hmax Htiles].
  destruct (len_is_max tx) as (n & Hn & Hnmax).
  { intros Hnil. destruct Hmax as [Hin _]. rewrite Hnil in Hin.
    by apply elem_of_nil in Hin. }
  exists tx, n. rewrite (is_max_unique _ _ _ Hnmax Hmax) in *. done.
Qed.

Lemma coordinate_coverage_witness :
  ∃ tx n,
    build_transcript
      (mk_line 1 "NM_1" "chr1" "-" 100 320 120 310 [100; 300] [150; 320] "G")
    = Ok tx
    ∧ Transcript.len tx = Ok n
    ∧ is_max n (Transcript.trans_ends tx)
    ∧ tiles (Transcript.trans_starts tx) (Transcript.trans_ends tx) 0 n.
Proof.
  apply (coordinate_coverage
           (mk_line 1 "NM_1" "chr1" "-" 100 320 120 310 [100; 300] [150; 320] "G")).
  - right. reflexivity.
  - reflexivity.
  - simpl. discriminate.
Defined.

(** C5. On both strands the transcript-local pairs are index-aligned with
    the genomic exons: there are as many of them as exons, the pair at
    index [i] belongs to genomic exon [i] (on the plus strand it starts
    after the summed length of the exons before [i], on the minus strand
    after the summed length of the exons behind [i]), and its length is the
    genomic length of exon [i]. *)
Theorem index_alignment (l : array_line) :
  line_strand l = "+" ∨ line_strand l = "-" →
  length (line_exonStarts l) = length (line_exonEnds l) →
  ∃ tx, build_transcript l = Ok tx
    ∧ Transcript.genomic_starts tx = line_exonStarts l
    ∧ Transcript.genomic_ends tx = line_exonEnds l
    ∧ length (Transcript.trans_starts tx) = length (line_exonStarts l)
    ∧ length (Transcript.trans_ends tx) = length (line_exonStarts l)
    ∧ ∀ i s e,
        line_exonStarts l !! i = Some s → line_exonEnds l !! i = Some e →
        ∃ ls le,
          Transcript.trans_starts tx !! i = Some ls
          ∧ Transcript.trans_ends tx !! i = Some le
          ∧ le - ls = e - s
          ∧ ls = if String.eqb (line_strand l) "+"
                 then span_sum (take i (zip (line_exonStarts l) (line_exonEnds l)))
                 else span_sum (drop (S i) (zip (line_exonStarts l) (line_exonEnds l))).
Proof.
  intros Hstrand Hlen.
  destruct (build_transcript_coordinates l Hstrand Hlen) as (tx & Htx & Hts & Hte).
  destruct (build_transcript_fields l tx Htx)
    as (_ & _ & _ & _ & _ & _ & _ & Hgs & Hge).
  set (E := zip (line_exonStarts l) (line_exonEnds l)) in *.
  assert (HlenE : length E = length (line_exonStarts l)).
  { subst E. rewrite length_zip_with. lia. }
  exists tx. split; [done|]. split; [done|]. split; [done|].
  rewrite Hts, Hte. unfold local_starts, local_ends.
  destruct Hstrand as [Hs | Hs]; rewrite Hs; simpl.
  - rewrite length_starts_from, length_ends_from.
    split; [done|]. split; [done|]. intros i s e Hi He.
    assert (HEi : E !! i = Some (s, e)).
    { subst E. rewrite lookup_zip_with, Hi, He. done. }
    pose proof (lookup_lt_Some _ _ _ HEi) as Hlt.
    eexists _, _. split; [by apply starts_from_lookup|].
    split; [by apply ends_from_lookup|].
    rewrite (span_sum_take_S E i s e HEi). split; [lia|]. simpl. lia.
  - rewrite length_starts_back, length_ends_back.
    split; [done|]. split; [done|]. intros i s e Hi He.
    assert (HEi : E !! i = Some (s, e)).
    { subst E. rewrite lookup_zip_with, Hi, He. done. }
    pose proof (lookup_lt_Some _ _ _ HEi) as Hlt.
    eexists _, _. split; [by apply starts_back_lookup|].
    split; [by apply ends_back_lookup|].
    rewrite (span_sum_drop E i s e HEi). split; [lia|done].
Qed.

Lemma index_alignment_witness :
  ∃ tx,
    build_transcript
      (mk_line 1 "NM_1" "chr1" "-" 100 320 120 310 [100; 300] [150; 320] "G")
    = Ok tx
    ∧ Transcript.trans_starts tx = [20; 0]
    ∧ Transcript.trans_ends tx = [70; 20].
Proof.
  destruct (index_alignment
              (mk_line 1 "NM_1" "chr1" "-" 100 320 120 310 [100; 300] [150; 320] "G"))
    as (tx & Htx & _); [right; reflexivity | reflexivity |].
  exists tx. split; [exact Htx|]. injection Htx as <-. split; reflexivity.
Defined.

(** ** The peak remapper *)

Lemma fold_left_emit {A B : Type} (f : A → option B) (xs : list A) (out : list B) :
  fold_left (λ out x, match f x with Some y => out ++ [y] | None => out end) xs out
  = out ++ omap f xs.
Proof.
  revert out. induction xs as [|x xs IH]; intros out; simpl.
  - by rewrite app_nil_r.
  - rewrite IH. destruct (f x); [|done]. by rewrite <- app_assoc.
Qed.

Lemma gen2tr_tr_bed_omap intersection :
  gen2tr_tr_bed intersection = omap remap intersection.
Proof. unfold gen2tr_tr_bed. by rewrite fold_left_emit. Qed.

(** C6. The segment printed for an overlap record.  Plus strand: a peak
    that starts at or before the exon start gives the segment from the
    exon's transcript-local start, of the length of the overlap; a peak that
    starts inside the exon gives that segment shifted by
    [gap = p_start - ex_st].  Minus strand: the same with the ends, the
    shift being [gap = ex_end - p_end].  The second loop of [gen2tr] prints
    these segments in the order of the records.  The record of the plus
    strand exon (1000, 1100) with transcript-local start 200 and the peak
    (1050, 1200) overlapping 50 bases gives the segment (250, 300). *)
Theorem remap_segment (r : overlap_line) (intersection : list overlap_line) :
  (ov_strand r = "+" → p_start r ≤ ex_st r →
     remap r = Some (mk_tr (ov_uid r) (tr_exon_start r)
                       (tr_exon_start r + overlap r) (peak_id r)))
  ∧ (ov_strand r = "+" → ex_st r < p_start r →
     remap r = Some (mk_tr (ov_uid r) (tr_exon_start r + (p_start r - ex_st r))
                       (tr_exon_start r + (p_start r - ex_st r) + overlap r)
                       (peak_id r)))
  ∧ (ov_strand r = "-" → ex_end r ≤ p_end r →
     remap r = Some (mk_tr (ov_uid r) (tr_exon_start r)
                       (tr_exon_start r + overlap r) (peak_id r)))
  ∧ (ov_strand r = "-" → p_end r < ex_end r →
     remap r = Some (mk_tr (ov_uid r) (tr_exon_start r + (ex_end r - p_end r))
                       (tr_exon_start r + (ex_end r - p_end r) + overlap r)
                       (peak_id r)))
  ∧ gen2tr_tr_bed intersection = omap remap intersection
  ∧ remap (mk_overlap 1050 1200 "peak_1" 1000 1100 "+" "7" 200 50)
    = Some (mk_tr "7" 250 300 "peak_1").
Proof.
  unfold remap. repeat split.
  - intros -> H. simpl. by rewrite (proj2 (Z.leb_le _ _) H).
  - intros -> H. simpl. rewrite (proj2 (Z.leb_gt _ _) H).
    by rewrite (proj2 (Z.gtb_lt _ _) H).
  - intros -> H. simpl. by rewrite (proj2 (Z.geb_le _ _) H).
  - intros -> H. simpl.
    destruct (p_end r >=? ex_end r) eqn:Hge; [apply Z.geb_le in Hge; lia|].
    by rewrite (proj2 (Z.ltb_lt _ _) H).
  - apply gen2tr_tr_bed_omap.
Qed.

Lemma remap_segment_witness :
  remap (mk_overlap 900 1040 "peak_2" 1000 1100 "-" "7" 200 40)
  = Some (mk_tr "7" 260 300 "peak_2").
Proof.
  apply (remap_segment (mk_overlap 900 1040 "peak_2" 1000 1100 "-" "7" 200 40) []).
  - reflexivity.
  - simpl. lia.
Defined.

(** C10. For every overlap record the width of the printed segment is the
    overlap length of the record, on both strands and in both branches of
    the boundary comparison; nothing is printed only for a strand that is
    neither plus nor minus.  The second loop of [gen2tr] prints exactly
    these segments. *)
Theorem remap_width (intersection : list overlap_line) :
  Forall (λ r, match remap r with
               | Some seg => tr_end seg - tr_start seg = overlap r
               | None => ov_strand r ≠ "+" ∧ ov_strand r ≠ "-"
               end) intersection
  ∧ gen2tr_tr_bed intersection = omap remap intersection.
Proof.
  split; [|apply gen2tr_tr_bed_omap].
  apply Forall_forall. intros r _. unfold remap.
  destruct (String.eqb (ov_strand r) "+") eqn:Hplus.
  { destruct (p_start r <=? ex_st r) eqn:Hle; [simpl; lia|].
    apply Z.leb_gt in Hle. rewrite (proj2 (Z.gtb_lt _ _) Hle). simpl. lia. }
  destruct (String.eqb (ov_strand r) "-") eqn:Hminus.
  { destruct (p_end r >=? ex_end r) eqn:Hge; [simpl; lia|].
    assert (p_end r < ex_end r) as Hlt.
    { destruct (Z.geb_spec (p_end r) (ex_end r)); [done|lia]. }
    rewrite (proj2 (Z.ltb_lt _ _) Hlt). simpl. lia. }
  apply String.eqb_neq in Hplus, Hminus. done.
Qed.

(** ** The isoform selector: the tie-break *)

(** C3. With equal expression the coding isoform is chosen when it comes
    after the longer non-coding isoform, but when the coding isoform (FPKM
    5.0, length 800) comes first, the longer non-coding isoform (FPKM 5.0,
    length 1200) replaces it: the branch for the longer isoform does not
    look at the coding flags.  The flags are those that
    [isoform_gene_dict] reads from the table file. *)
Theorem coding_first_is_replaced :
  isoform_gene_dict tie_header tie_table = Ok tie_genes
  ∧ choose_selected_cufflinks [tie_coding; tie_noncoding] tie_genes
    = Ok {["B"]}
  ∧ update_iso_dict {["G" := ("A", 5.0%float, 800, 1)]} "G" 0 tie_noncoding
    = {["G" := ("B", 5.0%float, 1200, 0)]}.
Proof. repeat split; vm_compute; reflexivity. Qed.

(** C2. The same two expression lines in the two orders give different
    winners: after the coding isoform the longer non-coding one is kept,
    after the non-coding isoform the coding one.  The choice depends on the
    arrival order.  The index of the genes is read from the table file by
    [isoform_gene_dict], which flags [A] 1 and [B] 0, and the selector is
    run on it as [choose_selected_cufflinks] does. *)
Theorem winner_depends_on_order :
  (gene_dict ← isoform_gene_dict tie_header tie_table;
   choose_loop gene_dict [tie_coding; tie_noncoding])
  = Ok ({["G" := ("B", 5.0%float, 1200, 0)]}, 0)
  ∧ (gene_dict ← isoform_gene_dict tie_header tie_table;
     choose_loop gene_dict [tie_noncoding; tie_coding])
    = Ok ({["G" := ("A", 5.0%float, 800, 1)]}, 0)
  ∧ (gene_dict ← isoform_gene_dict tie_header tie_table;
     choose_selected_cufflinks [tie_coding; tie_noncoding] gene_dict)
    = Ok {["B"]}
  ∧ (gene_dict ← isoform_gene_dict tie_header tie_table;
     choose_selected_cufflinks [tie_noncoding; tie_coding] gene_dict)
    = Ok {["A"]}
  ∧ isoform_gene_dict tie_header tie_table
    = Ok {["A" := ("G", 1); "B" := ("G", 0)]}
  ∧ [tie_coding; tie_noncoding] ≡ₚ [tie_noncoding; tie_coding].
Proof.
  repeat (split; [vm_compute; reflexivity|]). apply Permutation_swap.
Qed.

(** ** The isoform selector: isoforms missing from the table *)

Lemma choose_loop_from gene_dict lines iso_dict c :
  for_each (choose_body gene_dict) lines (iso_dict, c)
  = let u := Z.of_nat (length (absent gene_dict lines)) in
    if (u =? 0) || (c + u <=? 5)
    then Ok (winners gene_dict (present gene_dict lines) iso_dict, c + u)
    else Raise SystemExit.
Proof.
  revert iso_dict c. unfold absent, present.
  induction lines as [|l lines IH]; intros iso_dict c.
  - simpl. by rewrite Z.add_0_r.
  - simpl for_each.
    destruct (gene_dict !! isoform l) as [[gene coding]|] eqn:Hl.
    + replace (choose_body gene_dict (iso_dict, c) l)
        with (Ok (A := gmap string iso_entry * Z)
                (update_iso_dict iso_dict gene coding l, c))
        by (unfold choose_body; by rewrite Hl).
      rewrite bind_Ok, IH.
      rewrite (filter_cons_False _ l) by (rewrite Hl; done).
      rewrite (filter_cons_True _ l) by (rewrite Hl; done).
      simpl. by rewrite Hl.
    + rewrite (filter_cons_True _ l) by done.
      rewrite (filter_cons_False _ l) by (rewrite Hl; by intros [? ?]).
      cbn zeta.
      set (u' := length (filter (λ l0, gene_dict !! isoform l0 = None) lines)).
      specialize (IH iso_dict (c + 1)). cbn zeta in IH. fold u' in IH.
      replace (Z.of_nat (length (l :: filter _ lines))) with (1 + Z.of_nat u')
        by (simpl length; fold u'; lia).
      replace (choose_body gene_dict (iso_dict, c) l)
        with (if c + 1 >? 5 then Raise SystemExit
              else Ok (A := gmap string iso_entry * Z) (iso_dict, c + 1))
        by (unfold choose_body; by rewrite Hl).
      destruct (c + 1 >? 5) eqn:Hc.
      * apply Z.gtb_lt in Hc.
        replace (1 + Z.of_nat u' =? 0) with false by (symmetry; apply Z.eqb_neq; lia).
        replace (c + (1 + Z.of_nat u') <=? 5) with false
          by (symmetry; apply Z.leb_gt; lia).
        done.
      * rewrite bind_Ok, IH.
        assert (c + 1 ≤ 5) by (destruct (Z.gtb_spec (c + 1) 5); [lia|done]).
        replace (1 + Z.of_nat u' =? 0) with false by (symmetry; apply Z.eqb_neq; lia).
        replace (c + 1 + Z.of_nat u') with (c + (1 + Z.of_nat u')) by lia.
        destruct (Z.of_nat u' =? 0) eqn:Hu; [|done].
        apply Z.eqb_eq in Hu. simpl.
        replace (c + (1 + Z.of_nat u') <=? 5) with true
          by (symmetry; apply Z.leb_le; lia).
        done.
Qed.

Lemma absent_present gene_dict lines : absent gene_dict (present gene_dict lines) = [].
Proof.
  unfold absent, present. induction lines as [|l lines IH]; [done|].
  destruct (gene_dict !! isoform l) eqn:Hl.
  - rewrite (filter_cons_True _ l) by (rewrite Hl; done).
    rewrite (filter_cons_False _ l) by (rewrite Hl; done). done.
  - rewrite (filter_cons_False _ l) by (rewrite Hl; by intros [? ?]). done.
Qed.

Lemma present_present gene_dict lines :
  present gene_dict (present gene_dict lines) = present gene_dict lines.
Proof.
  unfold present. induction lines as [|l lines IH]; [done|].
  destruct (gene_dict !! isoform l) eqn:Hl.
  - rewrite (filter_cons_True _ l) by (rewrite Hl; done).
    rewrite (filter_cons_True _ l) by (rewrite Hl; done). by rewrite IH.
  - rewrite (filter_cons_False _ l) by (rewrite Hl; by intros [? ?]). done.
Qed.

(** C8. An expression line whose isoform is missing from the table is
    skipped, leaving the choices as they are, and counted.  While at most 5
    isoforms are missing the run ends normally, with the choices that the
    lines found in the table give on their own and the counter at the
    number of missing isoforms; as soon as a sixth one is seen the run is
    aborted, whatever follows.  Lines that are all found never abort. *)
Theorem unmatched_threshold (gene_dict : gmap string (string * Z))
  (lines more : list fpkm_line) :
  choose_loop gene_dict lines
  = (if (length (absent gene_dict lines) <=? 5)%nat
     then Ok (winners gene_dict (present gene_dict lines) ∅,
              Z.of_nat (length (absent gene_dict lines)))
     else Raise SystemExit)
  ∧ choose_selected_cufflinks lines gene_dict
    = (if (length (absent gene_dict lines) <=? 5)%nat
       then choose_selected_cufflinks (present gene_dict lines) gene_dict
       else Raise SystemExit)
  ∧ choose_selected_cufflinks (present gene_dict lines) gene_dict
    = Ok (chosen_set (winners gene_dict (present gene_dict lines) ∅))
  ∧ ((5 < length (absent gene_dict lines))%nat →
     choose_selected_cufflinks (lines ++ more) gene_dict = Raise SystemExit).
Proof.
  assert (Hloop : ∀ ls, choose_loop gene_dict ls
    = (if (length (absent gene_dict ls) <=? 5)%nat
       then Ok (winners gene_dict (present gene_dict ls) ∅,
                Z.of_nat (length (absent gene_dict ls)))
       else Raise SystemExit)).
  { intros ls. unfold choose_loop. rewrite choose_loop_from. cbn zeta.
    destruct (length (absent gene_dict ls) <=? 5)%nat eqn:Hu.
    - apply Nat.leb_le in Hu.
      replace (0 + Z.of_nat (length (absent gene_dict ls)) <=? 5) with true
        by (symmetry; apply Z.leb_le; lia).
      by rewrite orb_true_r.
    - apply Nat.leb_gt in Hu.
      replace (0 + Z.of_nat (length (absent gene_dict ls)) <=? 5) with false
        by (symmetry; apply Z.leb_gt; lia).
      replace (Z.of_nat (length (absent gene_dict ls)) =? 0) with false
        by (symmetry; apply Z.eqb_neq; lia).
      done. }
  assert (Hpresent : choose_selected_cufflinks (present gene_dict lines) gene_dict
    = Ok (chosen_set (winners gene_dict (present gene_dict lines) ∅))).
  { unfold choose_selected_cufflinks. rewrite Hloop.
    rewrite absent_present, present_present. done. }
  split; [apply Hloop|]. split; [|split; [exact Hpresent|]].
  - rewrite Hpresent. unfold choose_selected_cufflinks. rewrite Hloop.
    by destruct (length (absent gene_dict lines) <=? 5)%nat.
  - intros Hu.
    unfold choose_selected_cufflinks. rewrite Hloop.
    replace (length (absent gene_dict (lines ++ more)) <=? 5)%nat with false; [done|].
    symmetry. apply Nat.leb_gt. unfold absent. rewrite filter_app, length_app.
    unfold absent in Hu. lia.
Qed.

(** Six expression lines that the table does not know, after one that it
    knows: the run is aborted at the sixth, also when known lines follow. *)
Lemma unmatched_threshold_witness :
  choose_selected_cufflinks
    ([tie_coding; mk_fpkm "U1" 1%float 10; mk_fpkm "U2" 1%float 10;
      mk_fpkm "U3" 1%float 10; mk_fpkm "U4" 1%float 10; mk_fpkm "U5" 1%float 10;
      mk_fpkm "U6" 1%float 10] ++ [tie_noncoding])
    tie_genes
  = Raise SystemExit.
Proof.
  apply (unmatched_threshold tie_genes
           [tie_coding; mk_fpkm "U1" 1%float 10; mk_fpkm "U2" 1%float 10;
            mk_fpkm "U3" 1%float 10; mk_fpkm "U4" 1%float 10;
            mk_fpkm "U5" 1%float 10; mk_fpkm "U6" 1%float 10]
           [tie_noncoding]).
  vm_compute. lia.
Defined.

(** ** The parameter summary *)

Lemma for_each_app {A S : Type} (body : S → A → result S) (xs ys : list A) (s : S) :
  for_each body (xs ++ ys) s = (for_each body xs s ≫= for_each body ys).
Proof.
  revert s. induction xs as [|x xs IH]; intros s; simpl; [done|].
  destruct (body s x) as [s'|e]; [|done]. rewrite !bind_Ok. apply IH.
Qed.

Lemma getitem_second a b rest : getitem (a :: b :: rest) 1 = Ok b.
Proof.
  unfold getitem. simpl length.
  replace (1 <? 0) with false by done.
  replace ((0 <=? 1) && (1 <? Z.of_nat (S (S (length rest))))) with true.
  - done.
  - symmetry. apply andb_true_iff. split; [done|]. apply Z.ltb_lt. lia.
Qed.

Lemma getitem_last xs x : last xs = Some x → getitem xs (-1) = Ok x.
Proof.
  intros Hlast. unfold getitem.
  assert (0 < length xs)%nat as Hlen.
  { destruct xs; [done|simpl; lia]. }
  replace (-1 <? 0) with true by done.
  replace ((0 <=? -1 + Z.of_nat (length xs))
           && (-1 + Z.of_nat (length xs) <? Z.of_nat (length xs))) with true.
  - replace (Z.to_nat (-1 + Z.of_nat (length xs))) with (pred (length xs)) by lia.
    by rewrite <- last_lookup, Hlast.
  - symmetry. apply andb_true_iff. split; [apply Z.leb_le | apply Z.ltb_lt]; lia.
Qed.

Lemma sorted_last_max xs x :
  StronglySorted Z.le xs → last xs = Some x → Forall (λ y, y ≤ x) xs.
Proof.
  induction 1 as [|y ys Hs IH Hall]; intros Hlast; [done|].
  destruct ys as [|z ys].
  - injection Hlast as <-. constructor; [lia|done].
  - rewrite last_cons_cons in Hlast. specialize (IH Hlast).
    constructor; [|done].
    rewrite Forall_forall in Hall. apply Hall.
    by apply last_Some_elem_of.
Qed.

Lemma is_max_Permutation m xs ys : xs ≡ₚ ys → is_max m xs → is_max m ys.
Proof. intros Hp [Hin Hall]. split; by rewrite <- Hp. Qed.

(** The sorted local starts of a spliced transcript. *)
Lemma sorted_spliced xs :
  (1 < length xs)%nat →
  ∃ a b rest last_x,
    sorted xs = a :: b :: rest
    ∧ last (sorted xs) = Some last_x
    ∧ is_second_smallest b xs
    ∧ is_max last_x xs.
Proof.
  intros Hlen. unfold sorted.
  pose proof (merge_sort_Permutation Z.le xs) as Hperm.
  pose proof (StronglySorted_merge_sort Z.le xs) as Hsorted.
  pose proof (Permutation_length Hperm) as Hl.
  destruct (merge_sort Z.le xs) as [|a [|b rest]] eqn:Hs; simpl in Hl; try lia.
  destruct (last (a :: b :: rest)) as [x|] eqn:Hlast;
    [|by apply last_None in Hlast].
  exists a, b, rest, x. split; [done|]. split; [done|]. split.
  - exists a, rest. split; [done|].
    apply StronglySorted_inv in Hsorted as [Hsorted Ha].
    apply StronglySorted_inv in Hsorted as [_ Hb].
    split; [|done]. by apply Forall_inv in Ha.
  - apply (is_max_Permutation _ (a :: b :: rest)); [done|]. split.
    + by apply last_Some_elem_of.
    + by apply sorted_last_max.
Qed.

Lemma length_sorted xs : length (sorted xs) = length xs.
Proof. unfold sorted. by rewrite merge_sort_Permutation. Qed.

Lemma builtin_len_summarizable tx :
  summarizable tx →
  ∃ n, builtin_len tx = Ok n ∧ Transcript.len tx = Ok n.
Proof.
  intros (_ & n & Hmax & Hn).
  destruct (len_is_max tx) as (n' & Hlen & Hmax').
  { intros Hnil. destruct Hmax as [Hin _]. rewrite Hnil in Hin.
    by apply elem_of_nil in Hin. }
  rewrite (is_max_unique _ _ _ Hmax' Hmax) in Hlen.
  exists n. split; [|done]. unfold builtin_len. rewrite Hlen, bind_Ok.
  replace (n <? 0) with false by (symmetry; apply Z.ltb_ge; lia).
  replace (sys_maxsize <? n) with false by (symmetry; apply Z.ltb_ge; lia).
  done.
Qed.

Lemma parameters_of_spec tx :
  summarizable tx → ∃ row, parameters_of tx = Ok row ∧ row_spec tx row.
Proof.
  intros Hsum.
  destruct (builtin_len_summarizable tx Hsum) as (n & Hblen & Hlen).
  destruct Hsum as ([c Hc] & _).
  unfold parameters_of, row_spec. rewrite Hc, Hblen, length_sorted. simpl positive_field.
  destruct (decide (1 < length (Transcript.trans_starts tx))%nat) as [Hsp|Hsp].
  - replace (1 <? length (Transcript.trans_starts tx))%nat with true
      by (symmetry; by apply Nat.ltb_lt).
    destruct (sorted_spliced _ Hsp) as (a & b & rest & x & Hs & Hlast & Hb & Hx).
    rewrite (getitem_last _ _ Hlast). rewrite Hs, getitem_second. rewrite !bind_Ok.
    destruct (decide (0 < c)) as [Hpos|Hpos].
    + replace (0 <? c) with true by (symmetry; by apply Z.ltb_lt).
      rewrite ?bind_Ok. eexists. split; [done|]. simpl.
      repeat first [ done | eexists | split ].
    + replace (0 <? c) with false by (symmetry; apply Z.ltb_ge; lia).
      rewrite ?bind_Ok. eexists. split; [done|]. simpl.
      repeat first [ done | eexists | split ].
  - replace (1 <? length (Transcript.trans_starts tx))%nat with false
      by (symmetry; apply Nat.ltb_ge; lia).
    rewrite !bind_Ok.
    destruct (decide (0 < c)) as [Hpos|Hpos].
    + replace (0 <? c) with true by (symmetry; by apply Z.ltb_lt).
      rewrite ?bind_Ok. eexists. split; [done|]. simpl.
      repeat first [ done | eexists | split ].
    + replace (0 <? c) with false by (symmetry; apply Z.ltb_ge; lia).
      rewrite ?bind_Ok. eexists. split; [done|]. simpl.
      repeat first [ done | eexists | split ].
Qed.

Lemma get_parameters_body_short parameters tx :
  short_chrom tx →
  get_parameters_body parameters tx
  = (parameters_of tx ≫= λ par, Ok (parameters ++ [par])).
Proof.
  intros H. unfold get_parameters_body.
  by replace (String.length (Transcript.chrom tx) <=? 5)%nat with true
    by (symmetry; by apply Nat.leb_le).
Qed.

Lemma get_parameters_body_long parameters tx :
  ¬ short_chrom tx → get_parameters_body parameters tx = Ok parameters.
Proof.
  intros H. unfold get_parameters_body.
  by replace (String.length (Transcript.chrom tx) <=? 5)%nat with false
    by (symmetry; apply Nat.leb_gt; unfold short_chrom in H; lia).
Qed.

Lemma get_parameters_group group parameters :
  Forall summarizable (filter short_chrom group) →
  ∃ rows, for_each get_parameters_body group parameters = Ok (parameters ++ rows)
    ∧ Forall2 row_spec (filter short_chrom group) rows.
Proof.
  revert parameters. induction group as [|tx group IH]; intros parameters Hall.
  - exists []. simpl. by rewrite app_nil_r.
  - simpl for_each.
    destruct (decide (short_chrom tx)) as [Hshort|Hlong].
    + rewrite (filter_cons_True _ tx) in * by done.
      apply Forall_cons in Hall as [Htx Hall].
      rewrite get_parameters_body_short by done.
      destruct (parameters_of_spec tx Htx) as (row & Hrow & Hspec).
      rewrite Hrow, !bind_Ok.
      destruct (IH (parameters ++ [row]) Hall) as (rows & Hrows & Hspecs).
      exists (row :: rows). rewrite Hrows, <- app_assoc. split; [done|].
      by constructor.
    + rewrite (filter_cons_False _ tx) in * by done.
      rewrite get_parameters_body_long, bind_Ok by done. by apply IH.
Qed.

Lemma get_parameters_from tx_dict parameters :
  Forall summarizable (filter short_chrom (transcripts tx_dict)) →
  ∃ rows,
    for_each (λ parameters '(tx_class, group),
        for_each get_parameters_body group parameters) tx_dict parameters
    = Ok (parameters ++ rows)
    ∧ Forall2 row_spec (filter short_chrom (transcripts tx_dict)) rows.
Proof.
  revert parameters.
  induction tx_dict as [|[tx_class group] tx_dict IH]; intros parameters Hall.
  - exists []. simpl. by rewrite app_nil_r.
  - unfold transcripts in *. simpl in Hall. rewrite filter_app in Hall.
    apply Forall_app in Hall as [Hgroup Hrest].
    destruct (get_parameters_group group parameters Hgroup) as (rows1 & H1 & Hs1).
    destruct (IH (parameters ++ rows1) Hrest) as (rows2 & H2 & Hs2).
    exists (rows1 ++ rows2). simpl for_each. rewrite H1, bind_Ok, H2.
    rewrite <- app_assoc. split; [done|].
    simpl. rewrite filter_app. by apply Forall2_app.
Qed.

Lemma get_parameters_loop_rows tx_dict :
  Forall summarizable (filter short_chrom (transcripts tx_dict)) →
  ∃ rows, get_parameters_loop tx_dict = Ok rows
    ∧ Forall2 row_spec (filter short_chrom (transcripts tx_dict)) rows.
Proof.
  intros Hall. destruct (get_parameters_from tx_dict [] Hall) as (rows & H & Hs).
  exists rows. by split.
Qed.



(** ** Coding landmarks *)

Lemma fold_pick {A : Type} (P : A → bool) (f : A → Z) (xs : list A)
  (acc : option Z) (v : Z) :
  (∀ x, x ∈ xs → P x = true → f x = v) →
  acc = Some v ∨ (∃ x, x ∈ xs ∧ P x = true) →
  fold_left (pick P f) xs acc = Some v.
Proof.
  revert acc. induction xs as [|x xs IH]; intros acc Hval Hex; simpl.
  - destruct Hex as [->|(x & Hx & _)]; [done|]. by apply elem_of_nil in Hx.
  - apply IH.
    + intros y Hy. apply Hval. by right.
    + unfold pick. destruct (P x) eqn:HP.
      * left. f_equal. apply Hval; [left|done].
      * destruct Hex as [->|(y & Hy & HPy)]; [by left|].
        apply elem_of_cons in Hy as [->|Hy]; [congruence|]. right. eauto.
Qed.

Lemma start_stop_fold_plus cdss cdse xs c s :
  fold_left (Transcript.start_stop_body "+" cdss cdse) xs (c, s)
  = (fold_left (pick (inside cdss) (from_start cdss)) xs c,
     fold_left (pick (inside cdse) (from_start cdse)) xs s).
Proof.
  revert c s. induction xs as [|[[es ee] ls] xs IH]; intros c s; [done|].
  simpl fold_left. rewrite <- IH. f_equal.
  unfold Transcript.start_stop_body, pick, inside, from_start. simpl.
  destruct ((es <=? cdss) && (cdss <=? ee)), ((es <=? cdse) && (cdse <=? ee)); done.
Qed.

Lemma start_stop_fold_minus strand cdss cdse xs c s :
  String.eqb strand "+" = false →
  fold_left (Transcript.start_stop_body strand cdss cdse) xs (c, s)
  = (fold_left (pick (inside cdse) (from_end cdse)) xs c,
     fold_left (pick (inside cdss) (from_end cdss)) xs s).
Proof.
  intros Hs. revert c s. induction xs as [|[[es ee] ls] xs IH]; intros c s; [done|].
  simpl fold_left. rewrite <- IH. f_equal.
  unfold Transcript.start_stop_body, pick, inside, from_end. rewrite Hs.
  destruct ((es <=? cdss) && (cdss <=? ee)), ((es <=? cdse) && (cdse <=? ee)); done.
Qed.

Lemma zip3_from gs ge b :
  length gs = length ge →
  zip3 gs ge (starts_from b (zip gs ge)) = triples_from b (zip gs ge).
Proof.
  revert ge b. induction gs as [|s gs IH]; intros [|e ge] b Hlen; try done.
  simpl. f_equal. apply IH. simpl in Hlen. lia.
Qed.

Lemma zip3_back gs ge :
  length gs = length ge →
  zip3 gs ge (starts_back (zip gs ge)) = triples_back (zip gs ge).
Proof.
  revert ge. induction gs as [|s gs IH]; intros [|e ge] Hlen; try done.
  simpl. f_equal. apply IH. simpl in Hlen. lia.
Qed.

Lemma ascending_from_chain lo gs ge :
  ascending_from lo gs ge = true → chain lo (zip gs ge).
Proof.
  revert lo ge. induction gs as [|s gs IH]; intros lo [|e ge] H; try done.
  simpl in *. apply andb_true_iff in H as [H1 H2].
  apply andb_true_iff in H1 as [H0 H1]. repeat split; [lia|lia|by apply IH].
Qed.

Lemma ascending_exons_chain gs ge :
  ascending_exons gs ge = true → ∃ lo, chain lo (zip gs ge).
Proof.
  intros H. destruct gs as [|s gs]; [exists 0 | exists s];
    by apply ascending_from_chain.
Qed.

(** On the plus strand an exon of an ascending list starts, locally, at or
    after the offset, and not further from it than genomically from [lo]. *)
Lemma triples_from_bound lo b l s e ls :
  chain lo l → (s, e, ls) ∈ triples_from b l →
  lo ≤ s ∧ s ≤ e ∧ b ≤ ls ∧ ls - b ≤ s - lo.
Proof.
  revert lo b. induction l as [|[s0 e0] l IH]; intros lo b Hchain Hin; simpl in *.
  - by apply elem_of_nil in Hin.
  - destruct Hchain as (Hlo & Hse & Hchain).
    apply elem_of_cons in Hin as [[= -> -> ->]|Hin]; [lia|].
    destruct (IH _ _ Hchain Hin) as (? & ? & ? & ?). lia.
Qed.

(** On the minus strand the exons from an exon of an ascending list on sum
    to no more than the whole list, and the exons before it fit between
    [lo] and its start. *)
Lemma triples_back_bound lo l s e ls :
  chain lo l → (s, e, ls) ∈ triples_back l →
  lo ≤ s ∧ s ≤ e ∧ ls + (e - s) ≤ span_sum l ∧ span_sum l ≤ ls + (e - lo).
Proof.
  revert lo. induction l as [|[s0 e0] l IH]; intros lo Hchain Hin; simpl in *.
  - by apply elem_of_nil in Hin.
  - destruct Hchain as (Hlo & Hse & Hchain).
    apply elem_of_cons in Hin as [[= -> -> ->]|Hin]; [lia|].
    destruct (IH _ Hchain Hin) as (? & ? & ? & ?). lia.
Qed.

Lemma triples_from_coherent lo b l x t1 t2 :
  chain lo l → t1 ∈ triples_from b l → t2 ∈ triples_from b l →
  inside x t1 = true → inside x t2 = true → from_start x t1 = from_start x t2.
Proof.
  revert lo b. induction l as [|[s0 e0] l IH]; intros lo b Hchain H1 H2 Hx1 Hx2.
  - by apply elem_of_nil in H1.
  - simpl in *. destruct Hchain as (Hlo & Hse & Hchain).
    apply elem_of_cons in H1 as [->|H1]; apply elem_of_cons in H2 as [->|H2].
    + done.
    + destruct t2 as [[s e] ls].
      destruct (triples_from_bound _ _ _ _ _ _ Hchain H2) as (? & ? & ? & ?).
      unfold inside in *. simpl. lia.
    + destruct t1 as [[s e] ls].
      destruct (triples_from_bound _ _ _ _ _ _ Hchain H1) as (? & ? & ? & ?).
      unfold inside in *. simpl. lia.
    + by apply (IH e0 (b + e0 - s0)).
Qed.

Lemma triples_back_coherent lo l x t1 t2 :
  chain lo l → t1 ∈ triples_back l → t2 ∈ triples_back l →
  inside x t1 = true → inside x t2 = true → from_end x t1 = from_end x t2.
Proof.
  revert lo. induction l as [|[s0 e0] l IH]; intros lo Hchain H1 H2 Hx1 Hx2.
  - by apply elem_of_nil in H1.
  - simpl in *. destruct Hchain as (Hlo & Hse & Hchain).
    apply elem_of_cons in H1 as [->|H1]; apply elem_of_cons in H2 as [->|H2].
    + done.
    + destruct t2 as [[s e] ls].
      destruct (triples_back_bound _ _ _ _ _ Hchain H2) as (? & ? & ? & ?).
      unfold inside in *. simpl. lia.
    + destruct t1 as [[s e] ls].
      destruct (triples_back_bound _ _ _ _ _ Hchain H1) as (? & ? & ? & ?).
      unfold inside in *. simpl. lia.
    + by apply (IH e0).
Qed.

Lemma zip3_lookup {A B C : Type} (xs : list A) (ys : list B) (zs : list C)
  i x y z :
  xs !! i = Some x → ys !! i = Some y → zs !! i = Some z →
  zip3 xs ys zs !! i = Some (x, y, z).
Proof.
  revert ys zs i.
  induction xs as [|x0 xs IH]; intros [|y0 ys] [|z0 zs] [|i] Hx Hy Hz; try done.
  - simpl in *. congruence.
  - simpl in *. by apply IH.
Qed.

(** The model that the constructor returns for a line on the plus or minus
    strand with as many exon ends as exon starts. *)
Lemma build_transcript_eq l :
  line_strand l = "+" ∨ line_strand l = "-" →
  length (line_exonStarts l) = length (line_exonEnds l) →
  build_transcript l
  = Ok (Transcript.get_start_stop
          (Transcript.mk (line_tx_id l) (line_uid l) (line_chrom l)
             (line_strand l) (line_txStart l) (line_txEnd l) (line_cdsStart l)
             (line_cdsEnd l) (line_exonStarts l) (line_exonEnds l)
             (line_gene_id l)
             (local_starts (line_strand l)
                (zip (line_exonStarts l) (line_exonEnds l)))
             (local_ends (line_strand l)
                (zip (line_exonStarts l) (line_exonEnds l)))
             None None None)).
Proof.
  intros Hs Hlen. unfold build_transcript, Transcript.init.
  unfold local_starts, local_ends.
  destruct Hs as [Hs|Hs]; rewrite Hs.
  - by rewrite coordinates_plus.
  - by rewrite coordinates_minus.
Qed.

(** C4. For a transcript on the plus or minus strand with ascending,
    non-overlapping exons: if CDS start and CDS end are equal, the start
    codon and stop codon positions are both -1 and the transcript is
    non-coding.  Otherwise it is coding, and for every exon [i] whose
    genomic span contains the CDS start, the start codon position (plus
    strand) is [local-start i + (CDS start - genomic-start i)], or the stop
    codon position (minus strand) is
    [local-start i + (genomic-end i - CDS start)]; and for every exon [i]
    whose span contains the CDS end, the stop codon position (plus strand)
    is [local-start i + (CDS end - genomic-start i)], or the start codon
    position (minus strand) is [local-start i + (genomic-end i - CDS end)]. *)
Theorem coding_landmarks (l : array_line) :
  line_strand l = "+" ∨ line_strand l = "-" →
  ascending_exons (line_exonStarts l) (line_exonEnds l) = true →
  ∃ tx, build_transcript l = Ok tx
    ∧ (line_cdsStart l = line_cdsEnd l →
       Transcript.ctis tx = Some (-1) ∧ Transcript.stop tx = Some (-1)
       ∧ Transcript.type tx = Some "non-coding")
    ∧ (line_cdsStart l ≠ line_cdsEnd l →
       Transcript.type tx = Some "coding"
       ∧ ∀ i s e ls,
           line_exonStarts l !! i = Some s → line_exonEnds l !! i = Some e →
           Transcript.trans_starts tx !! i = Some ls →
           (s ≤ line_cdsStart l ≤ e →
            if String.eqb (line_strand l) "+"
            then Transcript.ctis tx = Some (ls + (line_cdsStart l - s))
            else Transcript.stop tx = Some (ls + (e - line_cdsStart l)))
           ∧ (s ≤ line_cdsEnd l ≤ e →
              if String.eqb (line_strand l) "+"
              then Transcript.stop tx = Some (ls + (line_cdsEnd l - s))
              else Transcript.ctis tx = Some (ls + (e - line_cdsEnd l)))).
Proof.
  intros Hstrand Hasc.
  pose proof (valid_exons_length _ _ (ascending_exons_valid _ _ Hasc)) as Hlen.
  destruct (ascending_exons_chain _ _ Hasc) as [lo Hchain].
  rewrite (build_transcript_eq l Hstrand Hlen).
  eexists. split; [done|].
  unfold Transcript.get_start_stop. simpl.
  set (E := zip (line_exonStarts l) (line_exonEnds l)) in *.
  split.
  - intros Heq. by rewrite (proj2 (Z.eqb_eq _ _) Heq).
  - intros Hne. rewrite (proj2 (Z.eqb_neq _ _) Hne).
    assert (Hinside : ∀ x s e ls, s ≤ x ≤ e → inside x (s, e, ls) = true).
    { intros x s e ls Hx. unfold inside. apply andb_true_iff.
      split; apply Z.leb_le; lia. }
    destruct Hstrand as [Hs|Hs]; rewrite Hs; unfold local_starts; simpl.
    + subst E. rewrite zip3_from by done. rewrite start_stop_fold_plus. simpl.
      split; [done|]. intros i s e ls Hi He Hls.
      rewrite <- zip3_from in * by done.
      assert (Hin : (s, e, ls)
                    ∈ zip3 (line_exonStarts l) (line_exonEnds l)
                        (starts_from 0 (zip (line_exonStarts l) (line_exonEnds l)))).
      { apply list_elem_of_lookup. exists i. by apply zip3_lookup. }
      rewrite zip3_from in * by done.
      split; intros Hx.
      * replace (ls + (line_cdsStart l - s))
          with (from_start (line_cdsStart l) (s, e, ls)) by (simpl; lia).
        apply fold_pick; [|right; eauto].
        intros t Ht HP. eapply triples_from_coherent; eauto.
      * replace (ls + (line_cdsEnd l - s))
          with (from_start (line_cdsEnd l) (s, e, ls)) by (simpl; lia).
        apply fold_pick; [|right; eauto].
        intros t Ht HP. eapply triples_from_coherent; eauto.
    + subst E. rewrite zip3_back by done.
      rewrite start_stop_fold_minus by done. simpl.
      split; [done|]. intros i s e ls Hi He Hls.
      rewrite <- zip3_back in * by done.
      assert (Hin : (s, e, ls)
                    ∈ zip3 (line_exonStarts l) (line_exonEnds l)
                        (starts_back (zip (line_exonStarts l) (line_exonEnds l)))).
      { apply list_elem_of_lookup. exists i. by apply zip3_lookup. }
      rewrite zip3_back in * by done.
      split; intros Hx.
      * replace (ls + (e - line_cdsStart l))
          with (from_end (line_cdsStart l) (s, e, ls)) by (simpl; lia).
        apply fold_pick; [|right; eauto].
        intros t Ht HP. eapply triples_back_coherent; eauto.
      * replace (ls + (e - line_cdsEnd l))
          with (from_end (line_cdsEnd l) (s, e, ls)) by (simpl; lia).
        apply fold_pick; [|right; eauto].
        intros t Ht HP. eapply triples_back_coherent; eauto.
Qed.

Lemma coding_landmarks_witness :
  ∃ tx, build_transcript minus_line = Ok tx
    ∧ Transcript.stop tx = Some 50 ∧ Transcript.ctis tx = Some 10.
Proof.
  destruct (coding_landmarks minus_line) as (tx & Htx & _ & Hcoding);
    [right; reflexivity | reflexivity |].
  exists tx. split; [exact Htx|].
  assert (Hne : line_cdsStart minus_line ≠ line_cdsEnd minus_line)
    by (simpl; lia).
  destruct (Hcoding Hne) as [_ H].
  assert (Hts : Transcript.trans_starts tx = [20; 0])
    by (injection Htx as <-; reflexivity).
  split.
  - apply (H 0%nat 100 150 20); [reflexivity | reflexivity | by rewrite Hts |].
    simpl. lia.
  - apply (H 1%nat 300 320 0); [reflexivity | reflexivity | by rewrite Hts |].
    simpl. lia.
Defined.

(** ** Dictionaries of groups *)

Lemma dict_get_None {V : Type} (d : list (pykey * V)) k :
  dict_get d k = None ↔ k ∉ d.*1.
Proof.
  induction d as [|[k' v] d IH]; simpl.
  - split; [intros _; apply not_elem_of_nil | done].
  - rewrite not_elem_of_cons. destruct (decide (k' = k)) as [->|Hne].
    + split; [done | by intros [? _]].
    + rewrite IH. split; [by intros ?; split | by intros [_ ?]].
Qed.

Lemma dict_get_Some {V : Type} (d : list (pykey * V)) k v :
  dict_get d k = Some v → (k, v) ∈ d.
Proof.
  induction d as [|[k' v'] d IH]; simpl; [done|].
  destruct (decide (k' = k)) as [->|Hne].
  - intros [= ->]. left.
  - intros H. right. auto.
Qed.

Lemma dict_set_new {V : Type} (d : list (pykey * V)) k v :
  k ∉ d.*1 → dict_set d k v = d ++ [(k, v)].
Proof.
  induction d as [|[k' v'] d IH]; simpl; [done|].
  rewrite not_elem_of_cons. intros [Hne Hnot].
  destruct (decide (k' = k)); [congruence|]. by rewrite IH.
Qed.

Lemma dict_set_keys {V : Type} (d : list (pykey * V)) k v :
  k ∈ d.*1 → (dict_set d k v).*1 = d.*1.
Proof.
  induction d as [|[k' v'] d IH]; simpl.
  - intros H. by apply elem_of_nil in H.
  - destruct (decide (k' = k)) as [->|Hne]; [done|].
    intros H. apply elem_of_cons in H as [->|H]; [done|].
    simpl. f_equal. by apply IH.
Qed.

Lemma dict_set_elem {V : Type} (d : list (pykey * V)) k v k' v' :
  NoDup d.*1 → (k', v') ∈ dict_set d k v →
  (k', v') = (k, v) ∨ ((k', v') ∈ d ∧ k' ≠ k).
Proof.
  induction d as [|[k0 v0] d IH]; simpl; intros Hnd Hin.
  - apply list_elem_of_singleton in Hin. by left.
  - apply NoDup_cons in Hnd as [Hk0 Hnd].
    destruct (decide (k0 = k)) as [->|Hne].
    + apply elem_of_cons in Hin as [Heq|Hin]; [by left|].
      right. split; [by right|]. intros ->. apply Hk0.
      apply list_elem_of_fmap. by exists (k, v').
    + apply elem_of_cons in Hin as [[= -> ->]|Hin].
      * right. split; [left | done].
      * destruct (IH Hnd Hin) as [?|[? ?]]; [by left|]. right. split; [by right|done].
Qed.

Section grouping_lemmas.

Context {A : Type} (kf : A → pykey).

Lemma singles_app (d1 d2 : list (pykey * list A)) :
  singles (d1 ++ d2) = singles d1 ++ singles d2.
Proof. unfold singles. by rewrite fmap_app, filter_app, concat_app. Qed.

Lemma singles_cons k (g : list A) (d : list (pykey * list A)) :
  singles ((k, g) :: d)
  = (if decide (length g = 1%nat) then g else []) ++ singles d.
Proof.
  unfold singles. simpl. rewrite filter_cons. simpl.
  by destruct (decide (length g = 1%nat)).
Qed.

Lemma filter_other_key k (g : list A) :
  Forall (λ y, kf y ≠ k) g → filter (λ y, kf y ≠ k) g = g.
Proof.
  induction 1 as [|y g Hy _ IH]; [done|].
  by rewrite filter_cons_True, IH.
Qed.

Lemma filter_same_key k (g : list A) :
  Forall (λ y, kf y = k) g → filter (λ y, kf y ≠ k) g = [].
Proof.
  induction 1 as [|y g Hy _ IH]; [done|].
  by rewrite filter_cons_False by (intros ?; done).
Qed.

Lemma singles_other_key k d :
  (∀ k' g, (k', g) ∈ d → k' ≠ k ∧ Forall (λ y, kf y = k') g) →
  filter (λ y, kf y ≠ k) (singles d) = singles d.
Proof.
  induction d as [|[k0 g0] d IH]; intros Hd; [done|].
  rewrite singles_cons, filter_app, IH.
  - f_equal. destruct (Hd k0 g0) as [Hne Hall]; [left|].
    destruct (decide (length g0 = 1%nat)); [|done].
    apply filter_other_key. eapply Forall_impl; [exact Hall|].
    simpl. congruence.
  - intros k' g Hin. apply Hd. by right.
Qed.

(** Replacing the group of a key by a group that does not count. *)
Lemma singles_set d k g :
  NoDup d.*1 →
  (∀ k' g', (k', g') ∈ d → Forall (λ y, kf y = k') g') →
  k ∈ d.*1 → length g ≠ 1%nat →
  singles (dict_set d k g) = filter (λ y, kf y ≠ k) (singles d).
Proof.
  induction d as [|[k0 g0] d IH]; intros Hnd Hkeys Hin Hlen.
  - by apply elem_of_nil in Hin.
  - simpl in Hnd. apply NoDup_cons in Hnd as [Hk0 Hnd]. simpl.
    destruct (decide (k0 = k)) as [->|Hne].
    + rewrite !singles_cons, filter_app.
      destruct (decide (length g = 1%nat)); [done|]. simpl.
      rewrite singles_other_key.
      * replace (filter _ (if decide (length g0 = 1%nat) then g0 else [])) with (@nil A);
          [done|].
        symmetry. destruct (decide (length g0 = 1%nat)); [|done].
        apply filter_same_key. apply Hkeys. left.
      * intros k' g' Hin'. split; [|apply Hkeys; by right].
        intros ->. apply Hk0. apply list_elem_of_fmap. by exists (k, g').
    + rewrite !singles_cons, filter_app. rewrite IH; try done.
      * f_equal. destruct (decide (length g0 = 1%nat)); [|done].
        symmetry. apply filter_other_key.
        eapply Forall_impl; [apply (Hkeys k0 g0); left|]. simpl. congruence.
      * intros k' g' Hin'. apply Hkeys. by right.
      * simpl in Hin. apply elem_of_cons in Hin as [->|Hin]; done.
Qed.

Lemma filter_ext_in (P Q : A → Prop) `{!∀ x, Decision (P x)}
  `{!∀ x, Decision (Q x)} (l : list A) :
  (∀ x, x ∈ l → P x ↔ Q x) → filter P l = filter Q l.
Proof.
  induction l as [|x l IH]; intros Hext; [done|].
  rewrite !filter_cons. rewrite IH by (intros y Hy; apply Hext; by right).
  destruct (decide (P x)) as [HP|HP], (decide (Q x)) as [HQ|HQ]; try done.
  - exfalso. apply HQ. apply Hext; [left|done].
  - exfalso. apply HP. apply Hext; [left|done].
Qed.

End grouping_lemmas.

Section grouping_correct.

Context {A : Type} (kf : A → pykey).

Lemma filter_key_snoc k (xs : list A) x :
  filter (λ y, kf y = k) (xs ++ [x])
  = filter (λ y, kf y = k) xs ++ (if decide (kf x = k) then [x] else []).
Proof.
  by rewrite filter_app.
Qed.

Lemma grouped_nil : grouped kf [] [].
Proof.
  split; [apply NoDup_nil_2|]. split; [|done].
  intros k g H. by apply elem_of_nil in H.
Qed.

Lemma grouped_add d xs x :
  grouped kf d xs → grouped kf (group_add kf d x) (xs ++ [x]).
Proof.
  intros (Hnd & Hgroups & Hnone). unfold group_add.
  destruct (dict_get d (kf x)) as [g|] eqn:Hget.
  - pose proof (dict_get_Some _ _ _ Hget) as Hin.
    assert (Hkey : kf x ∈ d.*1).
    { apply list_elem_of_fmap. by exists (kf x, g). }
    destruct (Hgroups _ _ Hin) as [Hg Hne].
    split; [by rewrite dict_set_keys|]. split.
    + intros k g' Hin'. apply dict_set_elem in Hin' as [[= -> ->]|[Hin' Hk]]; [| |done].
      * rewrite filter_key_snoc. rewrite decide_True by done.
        split; [by rewrite <- Hg|]. by destruct g.
      * destruct (Hgroups _ _ Hin') as [Hg' Hne'].
        rewrite filter_key_snoc. rewrite decide_False by done.
        by rewrite app_nil_r.
    + intros k Hk. rewrite dict_set_keys in Hk by done.
      rewrite filter_key_snoc, (Hnone k Hk).
      rewrite decide_False; [done|]. by intros <-.
  - apply dict_get_None in Hget. rewrite dict_set_new by done.
    split; [|split].
    + rewrite fmap_app. apply NoDup_app. split; [done|]. split.
      * intros k Hk Hk'. apply list_elem_of_singleton in Hk'. by subst.
      * apply NoDup_singleton.
    + intros k g Hin. apply elem_of_app in Hin as [Hin|Hin].
      * destruct (Hgroups _ _ Hin) as [Hg Hne].
        rewrite filter_key_snoc. rewrite decide_False.
        { by rewrite app_nil_r. }
        intros Heq. apply Hget. rewrite Heq.
        apply list_elem_of_fmap. by exists (k, g).
      * apply list_elem_of_singleton in Hin as [= -> ->].
        rewrite filter_key_snoc, (Hnone _ Hget). by rewrite decide_True.
    + intros k Hk. rewrite fmap_app in Hk.
      apply not_elem_of_app in Hk as [Hk Hk'].
      rewrite filter_key_snoc, (Hnone k Hk).
      rewrite decide_False; [done|]. intros Heq. apply Hk'. simpl.
      rewrite Heq. left.
Qed.

Lemma singles_add d xs x :
  grouped kf d xs → singles d = filter (sole kf xs) xs →
  singles (group_add kf d x) = filter (sole kf (xs ++ [x])) (xs ++ [x]).
Proof.
  intros (Hnd & Hgroups & Hnone) Hsingles. unfold group_add.
  rewrite filter_app.
  destruct (dict_get d (kf x)) as [g|] eqn:Hget.
  - pose proof (dict_get_Some _ _ _ Hget) as Hin.
    assert (Hkey : kf x ∈ d.*1).
    { apply list_elem_of_fmap. by exists (kf x, g). }
    destruct (Hgroups _ _ Hin) as [Hg Hne].
    assert (Hlen : (0 < length (filter (λ y, kf y = kf x) xs))%nat).
    { rewrite <- Hg. destruct g; [done|simpl; lia]. }
    rewrite singles_set with (kf := kf); try done.
    + rewrite Hsingles, list_filter_filter.
      rewrite (filter_cons_False _ x).
      * rewrite filter_nil, app_nil_r. apply list_filter_iff.
        intros y. unfold sole. rewrite filter_key_snoc, length_app.
        destruct (decide (kf x = kf y)) as [Heq|Hneq]; simpl.
        { rewrite <- Heq. split; [intros [? _]; congruence | lia]. }
        split; [intros [_ ?]; lia | intros ?; split; [congruence|lia]].
      * unfold sole. rewrite filter_key_snoc, length_app.
        rewrite decide_True by done. simpl. lia.
    + intros k' g' Hin'. destruct (Hgroups _ _ Hin') as [-> _].
      apply Forall_forall. intros y Hy. by apply list_elem_of_filter in Hy as [? _].
    + rewrite length_app. simpl. destruct g; [done|simpl; lia].
  - apply dict_get_None in Hget. rewrite dict_set_new by done.
    rewrite singles_app, Hsingles. f_equal.
    + apply filter_ext_in. intros y Hy. unfold sole.
      rewrite filter_key_snoc, length_app. rewrite decide_False; [simpl; lia|].
      intros Heq.
      apply (filter_nil_not_elem_of (λ z, kf z = kf x) xs y (Hnone _ Hget)); [|done].
      done.
    + rewrite filter_cons_True.
      * by rewrite filter_nil.
      * unfold sole. rewrite filter_key_snoc, length_app, (Hnone _ Hget).
        by rewrite decide_True.
Qed.

(** The members of the one-member groups of a dictionary built from
    [xs] are the elements of [xs] that are alone with their key, in the
    order of [xs]. *)
Lemma singles_grouping xs :
  grouped kf (grouping kf xs) xs
  ∧ singles (grouping kf xs) = filter (sole kf xs) xs.
Proof.
  induction xs as [|x xs [IH1 IH2]] using rev_ind.
  - split; [apply grouped_nil | done].
  - unfold grouping in *. rewrite fold_left_app. simpl. split.
    + by apply grouped_add.
    + by apply singles_add.
Qed.

End grouping_correct.

(** ** The conversion input of the peak remapper *)

Lemma keydict_key_of key l tx :
  build_transcript l = Ok tx → keydict key l = key_of key tx.
Proof.
  intros H. destruct (build_transcript_fields l tx H) as (Hid & Huid & Hgid & _).
  unfold keydict, key_of. by rewrite Hid, Huid, Hgid.
Qed.

Lemma build_transcriptome_body_eq key d l :
  build_transcriptome_body key d l
  = (build_transcript l ≫= λ tx, Ok (group_add (key_of key) d tx)).
Proof.
  unfold build_transcriptome_body.
  destruct (build_transcript l) as [tx|e] eqn:Hb.
  - rewrite (keydict_key_of key l tx Hb).
    destruct (dict_get d (key_of key tx)) as [group|] eqn:Hg;
      rewrite !bind_Ok; unfold group_add; by rewrite Hg.
  - by destruct (dict_get d (keydict key l)).
Qed.

Lemma build_transcriptome_loop key tb d :
  for_each (build_transcriptome_body key) tb d
  = (map_result build_transcript tb
     ≫= λ txs, Ok (fold_left (group_add (key_of key)) txs d)).
Proof.
  revert d. induction tb as [|l tb IH]; intros d; [done|].
  simpl. rewrite build_transcriptome_body_eq.
  destruct (build_transcript l) as [tx|e]; [|done].
  rewrite !bind_Ok, IH.
  by destruct (map_result build_transcript tb).
Qed.

Lemma print_exons_eq tx out : print_exons tx out = out ++ exon_lines tx.
Proof.
  unfold print_exons, exon_lines.
  generalize (zip4 (Transcript.genomic_starts tx) (Transcript.genomic_ends tx)
                (Transcript.trans_starts tx) (Transcript.trans_ends tx)).
  intros xs. revert out.
  induction xs as [|[[[a b] c] d] xs IH]; intros out; simpl.
  - by rewrite app_nil_r.
  - rewrite IH, <- app_assoc. done.
Qed.

Lemma print_group_eq group out :
  fold_left (λ out tx, print_exons tx out) group out
  = out ++ concat (exon_lines <$> group).
Proof.
  revert out. induction group as [|tx group IH]; intros out; simpl.
  - by rewrite app_nil_r.
  - rewrite IH, print_exons_eq, <- app_assoc. done.
Qed.

Lemma gen2tr_bed_key_eq tx_dict :
  gen2tr_bed_key tx_dict = concat (exon_lines <$> singles tx_dict).
Proof.
  unfold gen2tr_bed_key.
  assert (H : ∀ out,
    fold_left (λ (out : list bed_key_line)
                 '((tx_class, group) : pykey * list Transcript.t),
        if (length group =? 1)%nat
        then fold_left (λ out tx, print_exons tx out) group out
        else out) tx_dict out
    = out ++ concat (exon_lines <$> singles tx_dict)).
  { induction tx_dict as [|[k g] d IH]; intros out.
    - simpl. by rewrite app_nil_r.
    - simpl fold_left. rewrite IH, singles_cons, fmap_app, concat_app.
      destruct (decide (length g = 1%nat)) as [Hg|Hg].
      + rewrite (proj2 (Nat.eqb_eq _ _) Hg), print_group_eq.
        by rewrite <- app_assoc.
      + by rewrite (proj2 (Nat.eqb_neq _ _) Hg). }
  apply H.
Qed.

Lemma sole_tx_id_key txs tx : sole (key_of "txid") txs tx ↔ sole_tx_id txs tx.
Proof.
  unfold sole, sole_tx_id.
  rewrite (list_filter_iff (λ y, key_of "txid" y = key_of "txid" tx)
             (λ t, Transcript.id t = Transcript.id tx)); [done|].
  intros t. unfold key_of. simpl. split; [by intros [= ->] | by intros ->].
Qed.

(** C7, as the code has it.  The main program hands the remapper the
    transcriptome keyed by transcript id.  If a line of the table array
    does not build, or the summary of the transcriptome fails, the run ends
    with that exception; otherwise the conversion input consists of the
    exon lines of exactly those transcripts whose transcript id no other
    transcript of the table array has, in the order of the table array: a
    transcript whose transcript id is shared is left out, although its
    unique id is its own. *)
Theorem sole_transcript_id_participates (tb_array : list array_line) :
  main_bed_key tb_array
  = (map_result build_transcript tb_array ≫= λ txs,
     get_parameters (grouping (key_of "txid") txs) ≫= λ _,
     Ok (concat (exon_lines <$> filter (sole_tx_id txs) txs))).
Proof.
  unfold main_bed_key, build_transcriptome. simpl.
  rewrite build_transcriptome_loop.
  destruct (map_result build_transcript tb_array) as [txs|e]; [|done].
  rewrite !bind_Ok.
  change (fold_left (group_add (key_of "txid")) txs [])
    with (grouping (key_of "txid") txs).
  destruct (get_parameters (grouping (key_of "txid") txs)) as [rows|e]; [|done].
  rewrite !bind_Ok, gen2tr_bed_key_eq.
  rewrite (proj2 (singles_grouping (key_of "txid") txs)).
  do 3 f_equal. apply list_filter_iff. intros tx. apply sole_tx_id_key.
Qed.

(** C7 as stated, with the group of the unique id, fails on two records
    that share their transcript id: each is alone in the group of its
    unique id, and the conversion input is empty. *)
Lemma unique_id_rule_fails : ¬ unique_id_rule duplicate_table.
Proof.
  intros H.
  edestruct (H _ _ _ eq_refl eq_refl eq_refl) as [_ Hwritten].
  { left. }
  assert (Hin : mk_key "chr1" 100 150 "+" 1 0 50 ∈ @nil bed_key_line).
  { apply Hwritten.
    - eexists. split; reflexivity.
    - left. }
  by apply elem_of_nil in Hin.
Qed.

(** * Further properties of the code *)

(** ** The constructor: when it raises, and the transcript length *)

(** The loop over more exon starts than there are exon ends left. *)
Lemma coords_loop_short left starts es pre s :
  (length es < length starts)%nat →
  Transcript.coords_loop left (pre ++ es) (length pre) starts s = Raise IndexError.
Proof.
  revert es pre s.
  induction starts as [|x starts IH]; intros es pre [[b ts] te] Hlen;
    simpl in Hlen; [lia|].
  simpl. unfold Transcript.coords_body. destruct es as [|e es].
  - rewrite app_nil_r, lookup_ge_None_2 by lia. done.
  - rewrite list_lookup_middle by done. rewrite bind_Ok.
    replace (S (length pre)) with (length (pre ++ [e]))
      by (rewrite length_app; simpl; lia).
    rewrite (cons_middle e pre es), app_assoc.
    apply IH. simpl in Hlen. lia.
Qed.

(** The loop over no more exon starts than there are exon ends left. *)
Lemma coords_loop_enough left starts es pre s :
  (length starts ≤ length es)%nat →
  ∃ s', Transcript.coords_loop left (pre ++ es) (length pre) starts s = Ok s'.
Proof.
  revert es pre s.
  induction starts as [|x starts IH]; intros es pre [[b ts] te] Hlen.
  - by eexists.
  - destruct es as [|e es]; simpl in Hlen; [lia|].
    simpl. unfold Transcript.coords_body.
    rewrite list_lookup_middle by done. rewrite bind_Ok.
    replace (S (length pre)) with (length (pre ++ [e]))
      by (rewrite length_app; simpl; lia).
    rewrite (cons_middle e pre es), app_assoc.
    apply IH. lia.
Qed.

(** The constructor fails only with [IndexError], and it does so exactly
    for a line on the plus or minus strand with fewer exon ends than exon
    starts. *)
Theorem build_transcript_raises (l : array_line) :
  (build_transcript l = Raise IndexError
   ↔ (line_strand l = "+" ∨ line_strand l = "-")
     ∧ (length (line_exonEnds l) < length (line_exonStarts l))%nat)
  ∧ (∀ e, build_transcript l = Raise e → e = IndexError).
Proof.
  assert (Hcases :
    ((line_strand l = "+" ∨ line_strand l = "-")
     ∧ (length (line_exonEnds l) < length (line_exonStarts l))%nat
     ∧ build_transcript l = Raise IndexError)
    ∨ (¬ ((line_strand l = "+" ∨ line_strand l = "-")
          ∧ (length (line_exonEnds l) < length (line_exonStarts l))%nat)
       ∧ ∃ tx, build_transcript l = Ok tx)).
  { unfold build_transcript, Transcript.init,
      Transcript.get_transcriptomic_coordinates. simpl.
    destruct (String.eqb (line_strand l) "+") eqn:Hplus.
    { apply String.eqb_eq in Hplus.
      destruct (decide (length (line_exonEnds l) < length (line_exonStarts l))%nat)
        as [Hlt|Hge].
      - left. split; [by left|]. split; [done|].
        by rewrite (coords_loop_short false _ (line_exonEnds l) [] _ Hlt).
      - right. split; [tauto|].
        destruct (coords_loop_enough false (line_exonStarts l) (line_exonEnds l)
                    [] (0, [], [])) as [[[b ts] te] Hs]; [lia|].
        simpl in Hs. rewrite Hs. by eexists. }
    destruct (String.eqb (line_strand l) "-") eqn:Hminus.
    { apply String.eqb_eq in Hminus.
      destruct (decide (length (line_exonEnds l) < length (line_exonStarts l))%nat)
        as [Hlt|Hge].
      - left. split; [by right|]. split; [done|].
        rewrite (coords_loop_short true _ (reverse (line_exonEnds l)) [] _);
          [done|]. by rewrite !length_reverse.
      - right. split; [tauto|].
        destruct (coords_loop_enough true (reverse (line_exonStarts l))
                    (reverse (line_exonEnds l)) [] (0, [], []))
          as [[[b ts] te] Hs]; [rewrite !length_reverse; lia|].
        simpl in Hs. rewrite Hs. by eexists. }
    right. apply String.eqb_neq in Hplus, Hminus.
    split; [tauto|]. by eexists. }
  destruct Hcases as [(Hs & Hlt & Hraise)|(Hnot & tx & Hok)].
  - rewrite Hraise. split; [done|]. by intros e [= <-].
  - rewrite Hok. split; [split; [done|tauto]|done].
Qed.

Lemma local_ends_max strand (E : list (Z * Z)) :
  Forall (λ x, x.1 ≤ x.2) E → E ≠ [] → is_max (span_sum E) (local_ends strand E).
Proof.
  intros Hall Hne. unfold local_ends. destruct (String.eqb strand "+").
  - split; [apply (ends_from_total 0 E Hne) | apply (ends_from_bound 0 E Hall)].
  - split; [by apply ends_back_total | by apply ends_back_bound].
Qed.

(** The length of a transcript is the summed length of its exons. *)
Theorem length_is_exon_sum (l : array_line) :
  line_strand l = "+" ∨ line_strand l = "-" →
  valid_exons (line_exonStarts l) (line_exonEnds l) = true →
  line_exonStarts l ≠ [] →
  ∃ tx, build_transcript l = Ok tx
    ∧ Transcript.len tx = Ok (span_sum (zip (line_exonStarts l) (line_exonEnds l))).
Proof.
  intros Hstrand Hvalid Hne.
  pose proof (valid_exons_length _ _ Hvalid) as Hlen.
  pose proof (valid_exons_Forall _ _ Hvalid) as Hall.
  destruct (build_transcript_coordinates l Hstrand Hlen) as (tx & Htx & _ & Hte).
  exists tx. split; [done|].
  assert (Hmax : is_max (span_sum (zip (line_exonStarts l) (line_exonEnds l)))
                   (Transcript.trans_ends tx)).
  { rewrite Hte. apply local_ends_max; [done|].
    destruct (line_exonStarts l), (line_exonEnds l); done. }
  destruct (len_is_max tx) as (n & Hn & Hnmax).
  { intros Hnil. destruct Hmax as [Hin _]. rewrite Hnil in Hin.
    by apply elem_of_nil in Hin. }
  by rewrite Hn, (is_max_unique _ _ _ Hnmax Hmax).
Qed.

Lemma length_is_exon_sum_witness :
  ∃ tx, build_transcript minus_line = Ok tx ∧ Transcript.len tx = Ok 70.
Proof.
  apply (length_is_exon_sum minus_line).
  - right. reflexivity.
  - reflexivity.
  - simpl. discriminate.
Defined.

(** ** The remapped segment as the image of the genomic intersection *)

Lemma remap_image_of_intersection (r : overlap_line) :
  ov_strand r = "+" ∨ ov_strand r = "-" →
  exact_overlap r →
  ∃ seg, remap r = Some seg
    ∧ tr_start seg
      = (if String.eqb (ov_strand r) "+"
         then tr_exon_start r + (intersection_start r - ex_st r)
         else tr_exon_start r + (ex_end r - intersection_end r))
    ∧ tr_end seg
      = (if String.eqb (ov_strand r) "+"
         then tr_exon_start r + (intersection_end r - ex_st r)
         else tr_exon_start r + (ex_end r - intersection_start r))
    ∧ tr_exon_start r ≤ tr_start seg
    ∧ tr_end seg ≤ tr_exon_start r + (ex_end r - ex_st r).
Proof.
  unfold exact_overlap, intersection_start, intersection_end, remap.
  intros [Hs|Hs] Hov; rewrite Hs; simpl.
  - destruct (p_start r <=? ex_st r) eqn:Hle.
    + apply Z.leb_le in Hle. eexists. split; [done|]. simpl. lia.
    + apply Z.leb_gt in Hle. rewrite (proj2 (Z.gtb_lt _ _) Hle).
      eexists. split; [done|]. simpl. lia.
  - destruct (p_end r >=? ex_end r) eqn:Hge.
    + apply Z.geb_le in Hge. eexists. split; [done|]. simpl. lia.
    + assert (p_end r < ex_end r) as Hlt.
      { destruct (Z.geb_spec (p_end r) (ex_end r)); [done|lia]. }
      rewrite (proj2 (Z.ltb_lt _ _) Hlt).
      eexists. split; [done|]. simpl. lia.
Qed.

(** When the overlap of a record is the length of the genomic intersection
    of peak and exon, the printed segment is the image of that intersection
    under the map that takes the exon to its transcript-local interval
    (from the exon start on the plus strand, from the exon end on the minus
    strand), and it lies within the transcript-local interval of the exon. *)
Theorem remap_is_image (r : overlap_line) :
  ov_strand r = "+" ∨ ov_strand r = "-" →
  exact_overlap r →
  ∃ seg, remap r = Some seg
    ∧ tr_start seg
      = (if String.eqb (ov_strand r) "+"
         then tr_exon_start r + (intersection_start r - ex_st r)
         else tr_exon_start r + (ex_end r - intersection_end r))
    ∧ tr_end seg
      = (if String.eqb (ov_strand r) "+"
         then tr_exon_start r + (intersection_end r - ex_st r)
         else tr_exon_start r + (ex_end r - intersection_start r))
    ∧ tr_exon_start r ≤ tr_start seg
    ∧ tr_end seg ≤ tr_exon_start r + (ex_end r - ex_st r).
Proof. exact (remap_image_of_intersection r). Qed.

Lemma remap_is_image_witness :
  ∃ seg, remap (mk_overlap 900 1040 "peak_2" 1000 1100 "-" "7" 200 40) = Some seg
    ∧ tr_start seg = 260 ∧ tr_end seg = 300.
Proof.
  destruct (remap_is_image (mk_overlap 900 1040 "peak_2" 1000 1100 "-" "7" 200 40))
    as (seg & Hseg & Hstart & Hend & _); [right; reflexivity | reflexivity |].
  exists seg. split; [exact Hseg|]. split; [exact Hstart | exact Hend].
Defined.

(** ** Remapped peaks stay inside the transcript *)

Lemma zip4_elem {A B C D : Type} (xs : list A) (ys : list B) (zs : list C)
  (ws : list D) x y z w :
  (x, y, z, w) ∈ zip4 xs ys zs ws →
  ∃ i, xs !! i = Some x ∧ ys !! i = Some y ∧ zs !! i = Some z ∧ ws !! i = Some w.
Proof.
  revert ys zs ws.
  induction xs as [|x0 xs IH]; intros [|y0 ys] [|z0 zs] [|w0 ws] Hin;
    try (by apply elem_of_nil in Hin).
  simpl in Hin. apply elem_of_cons in Hin as [[= -> -> -> ->]|Hin].
  - by exists 0%nat.
  - destruct (IH _ _ _ Hin) as (i & ?). by exists (S i).
Qed.

Lemma exon_lines_elem tx k :
  k ∈ exon_lines tx →
  key_strand k = Transcript.strand tx
  ∧ key_uid k = Transcript.uid tx
  ∧ key_chrom k = Transcript.chrom tx
  ∧ ∃ i, Transcript.genomic_starts tx !! i = Some (key_exon_start k)
       ∧ Transcript.genomic_ends tx !! i = Some (key_exon_end k)
       ∧ Transcript.trans_starts tx !! i = Some (key_tr_exon_st k)
       ∧ Transcript.trans_ends tx !! i = Some (key_tr_exon_end k).
Proof.
  unfold exon_lines. intros Hin.
  apply list_elem_of_fmap in Hin as ([[[a b] c] d] & -> & Hin).
  simpl. repeat split. by apply zip4_elem.
Qed.

Lemma span_sum_take_drop (E : list (Z * Z)) i :
  span_sum (take i E) + span_sum (drop i E) = span_sum E.
Proof. by rewrite <- span_sum_app, take_drop. Qed.

(** The local interval of exon [i] has the length of the exon and lies
    within [0, total exon length]. *)
Lemma local_interval_bounds strand (E : list (Z * Z)) i s e :
  Forall (λ x, x.1 ≤ x.2) E → E !! i = Some (s, e) →
  ∃ ls le, local_starts strand E !! i = Some ls
    ∧ local_ends strand E !! i = Some le
    ∧ le - ls = e - s ∧ 0 ≤ ls ∧ le ≤ span_sum E.
Proof.
  intros Hall Hi. pose proof (lookup_lt_Some _ _ _ Hi) as Hlt.
  assert (0 ≤ span_sum (take i E)) as Htake
    by (apply span_sum_nonneg; by apply Forall_take).
  assert (0 ≤ span_sum (drop (S i) E)) as Hdrop
    by (apply span_sum_nonneg; by apply Forall_drop).
  pose proof (span_sum_take_drop E i) as Hsplit.
  pose proof (span_sum_take_S E i s e Hi) as HtakeS.
  pose proof (span_sum_drop E i s e Hi) as HdropS.
  unfold local_starts, local_ends. destruct (String.eqb strand "+").
  - eexists _, _. split; [by apply starts_from_lookup|].
    split; [by apply ends_from_lookup|]. lia.
  - eexists _, _. split; [by apply starts_back_lookup|].
    split; [by apply ends_back_lookup|]. lia.
Qed.

(** A peak remapped through a conversion line of a transcript lands inside
    the transcript: for a transcript built on the plus or minus strand from
    exons that do not end before they start, a conversion line [k] of it,
    and an overlap record that carries the columns of [k] and reports the
    length of the genomic intersection, the printed segment lies within the
    local interval of the exon, which lies within [0, length). *)
Theorem remapped_peak_within_transcript (l : array_line) (tx : Transcript.t)
  (k : bed_key_line) (r : overlap_line) :
  line_strand l = "+" ∨ line_strand l = "-" →
  valid_exons (line_exonStarts l) (line_exonEnds l) = true →
  build_transcript l = Ok tx →
  k ∈ exon_lines tx →
  of_key_line r k →
  exact_overlap r →
  ∃ seg n, remap r = Some seg
    ∧ Transcript.len tx = Ok n
    ∧ key_tr_exon_st k ≤ tr_start seg
    ∧ tr_end seg ≤ key_tr_exon_end k
    ∧ 0 ≤ key_tr_exon_st k
    ∧ key_tr_exon_end k ≤ n.
Proof.
  intros Hstrand Hvalid Htx Hk (Hst & Hend & Hrs & Htrs) Hov.
  pose proof (valid_exons_length _ _ Hvalid) as Hlen.
  pose proof (valid_exons_Forall _ _ Hvalid) as Hall.
  destruct (build_transcript_fields l tx Htx)
    as (_ & _ & _ & _ & Hts & _ & _ & Hgs & Hge).
  destruct (build_transcript_coordinates l Hstrand Hlen)
    as (tx' & Htx' & Hlstarts & Hlends).
  rewrite Htx in Htx'. injection Htx' as <-.
  destruct (exon_lines_elem tx k Hk) as (Hks & _ & _ & i & Hi1 & Hi2 & Hi3 & Hi4).
  set (E := zip (line_exonStarts l) (line_exonEnds l)) in *.
  assert (HEi : E !! i = Some (key_exon_start k, key_exon_end k)).
  { subst E. rewrite lookup_zip_with, <- Hgs, <- Hge, Hi1, Hi2. done. }
  destruct (local_interval_bounds (line_strand l) E i _ _ Hall HEi)
    as (ls & le & Hls & Hle & Hdiff & H0 & Htot).
  rewrite <- Hlstarts, Hi3 in Hls. rewrite <- Hlends, Hi4 in Hle.
  injection Hls as <-. injection Hle as <-.
  assert (HE : E ≠ []) by (intros HE; by rewrite HE in HEi).
  assert (Hlenn : Transcript.len tx = Ok (span_sum E)).
  { pose proof (local_ends_max (line_strand l) E Hall HE) as Hmax.
    rewrite <- Hlends in Hmax.
    destruct (len_is_max tx) as (n & Hn & Hnmax).
    { intros Hnil. destruct Hmax as [Hin _]. rewrite Hnil in Hin.
      by apply elem_of_nil in Hin. }
    by rewrite Hn, (is_max_unique _ _ _ Hnmax Hmax). }
  destruct (remap_image_of_intersection r) as (seg & Hseg & _ & _ & Hlo & Hhi);
    [rewrite Hrs, Hks, Hts; done | done |].
  exists seg, (span_sum E). rewrite Htrs, Hst, Hend in *.
  repeat split; try done; lia.
Qed.

Lemma remapped_peak_within_transcript_witness :
  ∃ seg n, remap minus_peak = Some seg
    ∧ Transcript.len minus_tx = Ok n
    ∧ key_tr_exon_st minus_key ≤ tr_start seg
    ∧ tr_end seg ≤ key_tr_exon_end minus_key
    ∧ 0 ≤ key_tr_exon_st minus_key
    ∧ key_tr_exon_end minus_key ≤ n.
Proof.
  apply (remapped_peak_within_transcript minus_line minus_tx minus_key minus_peak).
  - right. reflexivity.
  - reflexivity.
  - reflexivity.
  - left.
  - repeat split.
  - reflexivity.
Defined.

(** ** The annotation index *)

Lemma isoform_gene_dict_body_long (m : gmap string (string * Z)) split_line :
  (12 ≤ length split_line)%nat →
  ∃ name e, split_line !! 0%nat = Some name ∧ gene_entry split_line = Some e
    ∧ isoform_gene_dict_body m split_line = Ok (<[name := e]> m).
Proof.
  intros Hlen.
  do 12 (destruct split_line as [|? split_line]; [simpl in Hlen; lia|]).
  unfold isoform_gene_dict_body, gene_entry, column. simpl.
  destruct (String.eqb _ _); eexists _, _; repeat split; reflexivity.
Qed.

Lemma isoform_gene_dict_body_short (m : gmap string (string * Z)) split_line :
  (length split_line < 12)%nat →
  isoform_gene_dict_body m split_line = Raise IndexError.
Proof.
  intros Hlen. unfold isoform_gene_dict_body.
  do 12 (destruct split_line as [|? split_line];
         [simpl; try destruct (String.eqb _ _); done|]).
  simpl in Hlen. lia.
Qed.

Lemma isoform_gene_dict_loop lines (m m' : gmap string (string * Z)) :
  for_each isoform_gene_dict_body lines m = Ok m' →
  Forall (λ split_line, (12 ≤ length split_line)%nat) lines
  ∧ ∀ name, m' !! name
      = match last (filter (λ split_line, split_line !! 0%nat = Some name) lines) with
        | Some split_line => gene_entry split_line
        | None => m !! name
        end.
Proof.
  revert m. induction lines as [|l lines IH]; intros m H.
  { injection H as <-. by split. }
  simpl in H.
  destruct (decide (12 ≤ length l)%nat) as [Hl|Hl].
  - destruct (isoform_gene_dict_body_long m l Hl) as (key & e & Hkey & He & Hbody).
    rewrite Hbody, bind_Ok in H. destruct (IH _ H) as [Hall Hlook].
    split; [by constructor|]. intros name. rewrite Hlook, filter_cons.
    destruct (decide (l !! 0%nat = Some name)) as [Hn|Hn].
    + destruct (filter _ lines) as [|l' ls] eqn:Hf.
      * simpl. rewrite He. rewrite Hkey in Hn. injection Hn as ->.
        apply lookup_insert_eq.
      * rewrite last_cons_cons.
        destruct (last (l' :: ls)) eqn:Hlast; [done|]. by apply last_None in Hlast.
    + destruct (last (filter _ lines)); [done|].
      rewrite lookup_insert_ne; [done|]. intros ->. by rewrite Hkey in Hn.
  - rewrite isoform_gene_dict_body_short in H by lia. done.
Qed.

Lemma isoform_gene_dict_loop_Ok lines (m : gmap string (string * Z)) :
  Forall (λ split_line, (12 ≤ length split_line)%nat) lines →
  ∃ m', for_each isoform_gene_dict_body lines m = Ok m'.
Proof.
  intros Hall. revert m. induction Hall as [|l lines Hl _ IH]; intros m.
  { by eexists. }
  destruct (isoform_gene_dict_body_long m l Hl) as (key & e & _ & _ & Hbody).
  simpl. rewrite Hbody, bind_Ok. apply IH.
Qed.

(** The index is returned exactly for a file whose header has a first word
    that contains [bin] and whose lines all have the twelve columns up to
    name2; otherwise the function raises.  The index maps a transcript id
    to the gene and flag of the last line with this id, and has no entry
    for an id without a line.  The flag is 0 when the texts of column 7 and
    column 6 of the line, the exon count and the CDS end, are equal, else
    1: the CDS start, column 5, is not looked at. *)
Theorem isoform_gene_dict_lookup (first_line : list string)
  (lines : list (list string)) :
  ((∃ gene_dict, isoform_gene_dict first_line lines = Ok gene_dict)
   ↔ (∃ word rest, first_line = word :: rest ∧ str_contains "bin" word = true)
     ∧ Forall (λ split_line, (12 ≤ length split_line)%nat) lines)
  ∧ ∀ gene_dict name,
      isoform_gene_dict first_line lines = Ok gene_dict →
      gene_dict !! name
      = last (filter (λ split_line, split_line !! 0%nat = Some name) lines)
        ≫= gene_entry.
Proof.
  unfold isoform_gene_dict. destruct first_line as [|word rest].
  { split; [split|]; [by intros [? ?] | by intros [(? & ? & ? & _) _] | done]. }
  simpl. destruct (str_contains "bin" word) eqn:Hbin.
  - split; [split|].
    + intros [gene_dict H]. split; [by eexists _, _|].
      by destruct (isoform_gene_dict_loop _ _ _ H).
    + intros [_ Hall]. by apply isoform_gene_dict_loop_Ok.
    + intros gene_dict name H.
      destruct (isoform_gene_dict_loop _ _ _ H) as [_ Hlook].
      rewrite Hlook, lookup_empty. by destruct (last _).
  - split; [split|]; [by intros [? ?]| |done].
    intros [(w & r & Heq & Hw) _]. injection Heq as <- <-. congruence.
Qed.

(** The coding region of a line is not what decides its flag: a line with
    equal CDS start and CDS end and another exon count is flagged 1. *)
Example isoform_gene_dict_flag :
  isoform_gene_dict tie_header
    [["NR_1"; "chr1"; "+"; "100"; "900"; "900"; "900"; "3"; "100,300,700,";
      "200,400,900,"; "0"; "H"]]
  = Ok {["NR_1" := ("H", 1)]}.
Proof. vm_compute. reflexivity. Qed.

(** ** The isoform selector: one isoform per gene *)

Lemma update_iso_dict_other iso_dict gene coding l g :
  gene ≠ g → update_iso_dict iso_dict gene coding l !! g = iso_dict !! g.
Proof.
  intros Hne. unfold update_iso_dict.
  destruct (iso_dict !! gene) as [[[[i f] n] c]|].
  - repeat case_match; by rewrite ?lookup_insert_ne.
  - by rewrite lookup_insert_ne.
Qed.

Lemma update_iso_dict_same (d1 d2 : gmap string iso_entry) g coding l :
  d1 !! g = d2 !! g →
  update_iso_dict d1 g coding l !! g = update_iso_dict d2 g coding l !! g.
Proof.
  unfold update_iso_dict, iso_entry in *. intros H. rewrite H.
  destruct (d2 !! g) as [[[[i f] n] c]|] eqn:Hd.
  - repeat case_match; rewrite ?lookup_insert_eq; congruence.
  - by rewrite !lookup_insert_eq.
Qed.

(** The entry of the gene after an update: the line, or the entry that was
    there. *)
Lemma update_iso_dict_cases iso_dict g coding l :
  update_iso_dict iso_dict g coding l !! g
  = Some (isoform l, fpkm l, txlength l, coding)
  ∨ (update_iso_dict iso_dict g coding l !! g = iso_dict !! g
     ∧ is_Some (iso_dict !! g)).
Proof.
  unfold update_iso_dict.
  destruct (iso_dict !! g) as [[[[i f] n] c]|] eqn:Hd.
  - repeat case_match; rewrite ?lookup_insert_eq; eauto.
  - left. by rewrite lookup_insert_eq.
Qed.

Lemma winners_cons gene_dict l ls iso_dict :
  winners gene_dict (l :: ls) iso_dict
  = winners gene_dict ls
      (match gene_dict !! isoform l with
       | Some (gene, coding) => update_iso_dict iso_dict gene coding l
       | None => iso_dict
       end).
Proof. done. Qed.

Lemma winners_lookup_filter gene_dict ls g (d1 d2 : gmap string iso_entry) :
  d1 !! g = d2 !! g →
  winners gene_dict ls d1 !! g
  = winners gene_dict (filter (λ l, line_gene gene_dict l = Some g) ls) d2 !! g.
Proof.
  revert d1 d2. induction ls as [|l ls IH]; intros d1 d2 Hd; [done|].
  rewrite winners_cons, filter_cons.
  destruct (decide (line_gene gene_dict l = Some g)) as [Hg|Hg];
    unfold line_gene in Hg.
  - rewrite winners_cons.
    destruct (gene_dict !! isoform l) as [[gene coding]|] eqn:Hl; [|done].
    simpl in Hg. injection Hg as ->. apply IH. by apply update_iso_dict_same.
  - destruct (gene_dict !! isoform l) as [[gene coding]|] eqn:Hl; [|by apply IH].
    apply IH. rewrite update_iso_dict_other; [done|].
    intros ->. by apply Hg.
Qed.

Lemma choose_loop_Ok gene_dict lines iso_dict c :
  choose_loop gene_dict lines = Ok (iso_dict, c) →
  iso_dict = winners gene_dict (present gene_dict lines) ∅.
Proof.
  unfold choose_loop. rewrite choose_loop_from. cbn zeta.
  destruct (_ || _); [|done]. by intros [= <- _].
Qed.

Lemma choose_loop_present gene_dict lines :
  absent gene_dict lines = [] →
  choose_loop gene_dict lines = Ok (winners gene_dict lines ∅, 0).
Proof.
  intros Habs. unfold choose_loop. rewrite choose_loop_from. cbn zeta.
  rewrite Habs. simpl. do 3 f_equal.
  unfold present, absent in *. induction lines as [|l lines IH]; [done|].
  rewrite filter_cons in Habs. rewrite filter_cons.
  destruct (decide (gene_dict !! isoform l = None)) as [Hl|Hl]; [done|].
  destruct (decide (is_Some (gene_dict !! isoform l))) as [Hs|Hs].
  - by rewrite IH.
  - exfalso. apply Hs. by destruct (gene_dict !! isoform l); [eexists|].
Qed.

(** The choice for a gene depends only on the expression lines of that
    gene, in their order: when the selector returns, running it on the
    lines of gene [g] alone returns too, with the same entry for [g] and
    no isoform counted as missing. *)
Theorem gene_choice_independent (gene_dict : gmap string (string * Z))
  (lines : list fpkm_line) (g : string) (iso_dict : gmap string iso_entry)
  (c : Z) :
  choose_loop gene_dict lines = Ok (iso_dict, c) →
  ∃ iso_dict',
    choose_loop gene_dict (filter (λ l, line_gene gene_dict l = Some g) lines)
    = Ok (iso_dict', 0)
    ∧ iso_dict' !! g = iso_dict !! g.
Proof.
  intros Hloop. apply choose_loop_Ok in Hloop as ->.
  eexists. split.
  - apply choose_loop_present. unfold absent.
    induction lines as [|l lines IH]; [done|].
    rewrite filter_cons. destruct (decide (line_gene gene_dict l = Some g)) as [Hl|Hl];
      [|done].
    rewrite filter_cons, IH.
    destruct (decide (gene_dict !! isoform l = None)) as [Hn|Hn]; [|done].
    unfold line_gene in Hl. by rewrite Hn in Hl.
  - symmetry. rewrite (winners_lookup_filter gene_dict (present gene_dict lines) g ∅ ∅)
      by done.
    do 2 f_equal. unfold present. rewrite list_filter_filter.
    apply list_filter_iff. intros l. unfold line_gene. split; [tauto|].
    intros Hl. split; [done|]. destruct (gene_dict !! isoform l); [by eexists|done].
Qed.

Lemma gene_choice_independent_witness :
  ∃ iso_dict',
    choose_loop tie_genes
      (filter (λ l, line_gene tie_genes l = Some "G")
         [tie_coding; mk_fpkm "U1" 1%float 10; tie_noncoding])
    = Ok (iso_dict', 0)
    ∧ iso_dict' !! "G"
      = ({["G" := ("B", 5.0%float, 1200, 0)]} : gmap string iso_entry) !! "G".
Proof.
  apply (gene_choice_independent tie_genes
           [tie_coding; mk_fpkm "U1" 1%float 10; tie_noncoding] "G" _ 1).
  vm_compute. reflexivity.
Defined.

Lemma chosen_from_step gene_dict pre l (iso_dict : gmap string iso_entry) :
  chosen_from gene_dict pre iso_dict →
  chosen_from gene_dict (pre ++ [l])
    (match gene_dict !! isoform l with
     | Some (gene, coding) => update_iso_dict iso_dict gene coding l
     | None => iso_dict
     end).
Proof.
  intros [Hentry Hdom].
  assert (Hweak : ∀ g e, entry_of gene_dict pre g e →
                         entry_of gene_dict (pre ++ [l]) g e).
  { intros g e (l0 & c & Hin & Hg & ->). exists l0, c.
    split; [apply elem_of_app; by left|done]. }
  destruct (gene_dict !! isoform l) as [[gene coding]|] eqn:Hl.
  - split.
    + intros g e He. destruct (decide (gene = g)) as [->|Hne].
      * pose proof (update_iso_dict_cases iso_dict g coding l) as Hc.
        unfold iso_entry in *. destruct Hc as [Hnew|[Hold _]].
        { rewrite Hnew in He. injection He as <-. exists l, coding.
          split; [apply elem_of_app; right; left|done]. }
        rewrite Hold in He. auto.
      * pose proof (update_iso_dict_other iso_dict gene coding l g Hne) as Ho.
        unfold iso_entry in *. rewrite Ho in He. auto.
    + intros l0 g c Hin Hg. destruct (decide (gene = g)) as [->|Hne].
      * pose proof (update_iso_dict_cases iso_dict g coding l) as Hc.
        unfold iso_entry in *. destruct Hc as [Hnew|[Hold Hs]].
        { rewrite Hnew. by eexists. }
        by rewrite Hold.
      * pose proof (update_iso_dict_other iso_dict gene coding l g Hne) as Ho.
        unfold iso_entry in *. rewrite Ho.
        apply elem_of_app in Hin as [Hin|Hin]; [by eapply Hdom|].
        apply list_elem_of_singleton in Hin as ->. congruence.
  - split; [auto|].
    intros l0 g c Hin Hg. apply elem_of_app in Hin as [Hin|Hin]; [by eapply Hdom|].
    apply list_elem_of_singleton in Hin as ->. congruence.
Qed.

Lemma chosen_from_winners gene_dict ls pre (iso_dict : gmap string iso_entry) :
  chosen_from gene_dict pre iso_dict →
  chosen_from gene_dict (pre ++ ls) (winners gene_dict ls iso_dict).
Proof.
  revert pre iso_dict. induction ls as [|l ls IH]; intros pre iso_dict Hinv.
  - by rewrite app_nil_r.
  - rewrite winners_cons, (cons_middle l pre ls), app_assoc.
    apply IH. by apply chosen_from_step.
Qed.

Lemma elem_of_chosen_set (iso_dict : gmap string iso_entry) iso :
  iso ∈ chosen_set iso_dict
  ↔ ∃ g f n c, iso_dict !! g = Some (iso, f, n, c).
Proof.
  unfold chosen_set. rewrite elem_of_list_to_set, list_elem_of_fmap. split.
  - intros ([g [[[i f] n] c]] & -> & Hin).
    apply elem_of_map_to_list in Hin. eauto.
  - intros (g & f & n & c & Hg). exists (g, (iso, f, n, c)).
    split; [done|]. by apply elem_of_map_to_list.
Qed.

(** When the selector returns, every chosen isoform is an isoform of the
    expression lines that the table knows, every gene that the table gives
    some expression line has a chosen isoform, and no gene has two. *)
Theorem one_isoform_per_gene (gene_dict : gmap string (string * Z))
  (lines : list fpkm_line) (chosen : gset string) :
  choose_selected_cufflinks lines gene_dict = Ok chosen →
  (∀ iso, iso ∈ chosen →
     ∃ l, l ∈ lines ∧ isoform l = iso ∧ is_Some (gene_dict !! iso))
  ∧ (∀ l g c, l ∈ lines → gene_dict !! isoform l = Some (g, c) →
       ∃ iso c', iso ∈ chosen ∧ gene_dict !! iso = Some (g, c'))
  ∧ (∀ iso1 iso2 g c1 c2, iso1 ∈ chosen → iso2 ∈ chosen →
       gene_dict !! iso1 = Some (g, c1) → gene_dict !! iso2 = Some (g, c2) →
       iso1 = iso2).
Proof.
  unfold choose_selected_cufflinks.
  destruct (choose_loop gene_dict lines) as [[iso_dict n0]|e] eqn:Hloop; [|done].
  rewrite bind_Ok. intros [= <-]. apply choose_loop_Ok in Hloop.
  assert (Hinv : chosen_from gene_dict (present gene_dict lines) iso_dict).
  { rewrite Hloop.
    apply (chosen_from_winners gene_dict (present gene_dict lines) [] ∅).
    split; [intros g e He; by rewrite lookup_empty in He|].
    intros l g c0 Hin. by apply elem_of_nil in Hin. }
  destruct Hinv as [Hentry Hdom].
  assert (Hpresent : ∀ l, l ∈ present gene_dict lines
                          ↔ is_Some (gene_dict !! isoform l) ∧ l ∈ lines).
  { intros l. unfold present. by rewrite list_elem_of_filter. }
  split; [|split].
  - intros iso Hiso. apply elem_of_chosen_set in Hiso as (g & f & n & c0 & Hg).
    destruct (Hentry _ _ Hg) as (l & c' & Hin & Hl & [= -> _ _ _]).
    apply Hpresent in Hin as [Hs Hin]. by exists l.
  - intros l g c0 Hin Hl.
    destruct (Hdom l g c0) as [e He]; [apply Hpresent; by rewrite Hl|done|].
    destruct (Hentry _ _ He) as (l' & c' & _ & Hl' & ->).
    exists (isoform l'), c'. split; [|done].
    apply elem_of_chosen_set. eauto.
  - intros iso1 iso2 g c1 c2 H1 H2 Hg1 Hg2.
    apply elem_of_chosen_set in H1 as (g1 & f1 & n1 & d1 & He1).
    apply elem_of_chosen_set in H2 as (g2 & f2 & n2 & d2 & He2).
    destruct (Hentry _ _ He1) as (l1 & c1' & _ & Hl1 & [= -> _ _ _]).
    destruct (Hentry _ _ He2) as (l2 & c2' & _ & Hl2 & [= -> _ _ _]).
    rewrite Hl1 in Hg1. rewrite Hl2 in Hg2.
    injection Hg1 as -> _. injection Hg2 as -> _.
    rewrite He1 in He2. by injection He2.
Qed.

Lemma one_isoform_per_gene_witness :
  ∃ l, l ∈ [tie_coding; tie_noncoding] ∧ isoform l = "B"
       ∧ is_Some (tie_genes !! "B").
Proof.
  destruct (one_isoform_per_gene tie_genes
              [tie_coding; tie_noncoding] {["B"]}) as [Hfrom _].
  - vm_compute. reflexivity.
  - apply Hfrom. by apply elem_of_singleton.
Defined.

(** ** The transcriptome holds every transcript once *)

Lemma concat_dict_set {A : Type} (d : list (pykey * list A)) k g x :
  dict_get d k = Some g →
  concat (dict_set d k (g ++ [x])).*2 ≡ₚ concat d.*2 ++ [x].
Proof.
  induction d as [|[k0 g0] d IH]; simpl; [done|].
  destruct (decide (k0 = k)) as [->|Hne].
  - intros [= ->]. simpl. rewrite <- !app_assoc.
    apply Permutation_app_head, Permutation_app_comm.
  - intros Hget. simpl. rewrite (IH Hget). by rewrite app_assoc.
Qed.

Lemma concat_group_add {A : Type} (kf : A → pykey) d x :
  concat (group_add kf d x).*2 ≡ₚ concat d.*2 ++ [x].
Proof.
  unfold group_add. destruct (dict_get d (kf x)) as [g|] eqn:Hget.
  - by apply concat_dict_set.
  - apply dict_get_None in Hget. rewrite dict_set_new by done.
    rewrite fmap_app, concat_app. simpl. by rewrite ?app_nil_r.
Qed.

Lemma concat_grouping {A : Type} (kf : A → pykey) xs :
  concat (grouping kf xs).*2 ≡ₚ xs.
Proof.
  induction xs as [|x xs IH] using rev_ind; [done|].
  unfold grouping in *. rewrite fold_left_app. simpl.
  by rewrite concat_group_add, IH.
Qed.

(** What [build_transcriptome] returns for a key that it accepts. *)
Lemma build_transcriptome_valid tb key :
  valid_key key →
  build_transcriptome tb key
  = (map_result build_transcript tb ≫= λ txs, Ok (grouping (key_of key) txs)).
Proof.
  intros Hkey. unfold build_transcriptome.
  replace (negb _) with false by (by destruct Hkey as [->|[->| ->]]).
  apply build_transcriptome_loop.
Qed.

Lemma map_result_Ok {A B : Type} (f : A → result B) xs ys :
  map_result f xs = Ok ys ↔ Forall2 (λ x y, f x = Ok y) xs ys.
Proof.
  revert ys. induction xs as [|x xs IH]; intros ys; simpl.
  - split; [intros [= <-]; constructor | by inversion 1].
  - destruct (f x) as [y|e] eqn:Hx.
    + rewrite bind_Ok. destruct (map_result f xs) as [ys'|e] eqn:Hxs.
      * rewrite bind_Ok. split.
        { intros [= <-]. constructor; [done|]. by apply IH. }
        inversion 1 as [|? y' ? ys'' Hy Hys]; subst.
        apply IH in Hys. congruence.
      * split; [done|]. inversion 1 as [|? y' ? ys'' Hy Hys]; subst.
        by apply IH in Hys.
    + split; [done|]. inversion 1; congruence.
Qed.

Lemma build_transcriptome_Ok tb key tx_dict :
  build_transcriptome tb key = Ok tx_dict →
  valid_key key
  ∧ ∃ txs, Forall2 (λ l tx, build_transcript l = Ok tx) tb txs
      ∧ tx_dict = grouping (key_of key) txs.
Proof.
  intros Hbuild.
  assert (Hkey : valid_key key).
  { unfold build_transcriptome in Hbuild. unfold valid_key.
    destruct (String.eqb key "gid") eqn:H1; [apply String.eqb_eq in H1; auto|].
    destruct (String.eqb key "txid") eqn:H2; [apply String.eqb_eq in H2; auto|].
    destruct (String.eqb key "uid") eqn:H3; [apply String.eqb_eq in H3; auto|].
    done. }
  split; [done|].
  rewrite build_transcriptome_valid in Hbuild by done.
  destruct (map_result build_transcript tb) as [txs|e] eqn:Htxs; [|done].
  rewrite bind_Ok in Hbuild. injection Hbuild as <-.
  exists txs. split; [by apply map_result_Ok|done].
Qed.

(** The transcriptome of a table array, for any accepted key, holds the
    models of the lines of the table array, each once (the groups put them
    in another order); its keys are distinct, and every group is not empty
    and holds transcripts of its key only. *)
Theorem transcriptome_holds_every_transcript (tb : list array_line)
  (key : string) (tx_dict : list (pykey * list Transcript.t)) :
  build_transcriptome tb key = Ok tx_dict →
  ∃ txs, Forall2 (λ l tx, build_transcript l = Ok tx) tb txs
    ∧ transcripts tx_dict ≡ₚ txs
    ∧ Forall (λ '(k, group), group ≠ [] ∧ Forall (λ tx, key_of key tx = k) group)
        tx_dict
    ∧ NoDup tx_dict.*1.
Proof.
  intros Hbuild.
  destruct (build_transcriptome_Ok _ _ _ Hbuild) as (Hkey & txs & Hbuilt & ->).
  exists txs. split; [done|].
  split; [apply concat_grouping|].
  destruct (singles_grouping (key_of key) txs) as [(Hnd & Hgroups & _) _].
  split; [|done].
  apply Forall_forall. intros [k g] Hin.
  destruct (Hgroups k g Hin) as [-> Hne]. split; [done|].
  apply Forall_forall. intros tx Htx. by apply list_elem_of_filter in Htx as [? _].
Qed.

Lemma transcriptome_holds_every_transcript_witness :
  ∃ txs, Forall2 (λ l tx, build_transcript l = Ok tx) duplicate_table txs
    ∧ length txs = 2%nat.
Proof.
  destruct (transcriptome_holds_every_transcript duplicate_table "txid" _ eq_refl)
    as (txs & Hall & _).
  exists txs. split; [exact Hall|].
  apply Forall2_length in Hall. by rewrite <- Hall.
Defined.

(** ** The summary of a well-formed table *)

Lemma fold_pick_is_Some {A : Type} (P : A → bool) (f : A → Z) (xs : list A)
  (acc : option Z) :
  is_Some acc ∨ (∃ x, x ∈ xs ∧ P x = true) →
  is_Some (fold_left (pick P f) xs acc).
Proof.
  revert acc. induction xs as [|x xs IH]; intros acc Hex; simpl.
  - destruct Hex as [?|(x & Hx & _)]; [done|]. by apply elem_of_nil in Hx.
  - apply IH. unfold pick. destruct (P x) eqn:HP; [left; by eexists|].
    destruct Hex as [?|(y & Hy & HPy)]; [by left|].
    apply elem_of_cons in Hy as [->|Hy]; [congruence|]. right. eauto.
Qed.

Lemma triples_from_elem b (E : list (Z * Z)) s e :
  (s, e) ∈ E → ∃ ls, (s, e, ls) ∈ triples_from b E.
Proof.
  revert b. induction E as [|[s0 e0] E IH]; intros b Hin.
  - by apply elem_of_nil in Hin.
  - apply elem_of_cons in Hin as [[= -> ->]|Hin].
    + eexists. left.
    + destruct (IH (b + e0 - s0) Hin) as [ls Hls]. exists ls. by right.
Qed.

Lemma triples_back_elem (E : list (Z * Z)) s e :
  (s, e) ∈ E → ∃ ls, (s, e, ls) ∈ triples_back E.
Proof.
  induction E as [|[s0 e0] E IH]; intros Hin.
  - by apply elem_of_nil in Hin.
  - apply elem_of_cons in Hin as [[= -> ->]|Hin].
    + eexists. left.
    + destruct (IH Hin) as [ls Hls]. exists ls. by right.
Qed.

Lemma in_some_exon_inside x gs ge :
  in_some_exon x gs ge = true →
  ∃ s e, (s, e) ∈ zip gs ge ∧ ∀ ls, inside x (s, e, ls) = true.
Proof.
  unfold in_some_exon. intros H. apply existsb_exists in H as ([s e] & Hin & Hx).
  exists s, e. split; [by apply list_elem_of_In|done].
Qed.

(** The constructor sets the start codon field of a well-formed line, and
    the largest local end is the total exon length. *)
Lemma well_formed_summarizable l :
  well_formed_line l = true →
  ∃ tx, build_transcript l = Ok tx ∧ summarizable tx.
Proof.
  unfold well_formed_line. intros H.
  apply andb_true_iff in H as [H Hcds]. apply andb_true_iff in H as [H Hmaxsize].
  apply andb_true_iff in H as [H Hne]. apply andb_true_iff in H as [Hstrand Hasc].
  apply Z.leb_le in Hmaxsize. apply Nat.ltb_lt in Hne.
  assert (Hs : line_strand l = "+" ∨ line_strand l = "-").
  { apply orb_true_iff in Hstrand as [?|?]; [left|right]; by apply String.eqb_eq. }
  pose proof (ascending_exons_valid _ _ Hasc) as Hvalid.
  pose proof (valid_exons_length _ _ Hvalid) as Hlen.
  pose proof (valid_exons_Forall _ _ Hvalid) as Hall.
  set (E := zip (line_exonStarts l) (line_exonEnds l)) in *.
  assert (HE : E ≠ []).
  { subst E. destruct (line_exonStarts l), (line_exonEnds l); simpl in *; done || lia. }
  rewrite (build_transcript_eq l Hs Hlen). eexists. split; [done|]. split.
  - unfold Transcript.get_start_stop. simpl.
    destruct (line_cdsStart l =? line_cdsEnd l) eqn:Heq; [by eexists|].
    simpl in Hcds. apply andb_true_iff in Hcds as [Hin1 Hin2].
    apply in_some_exon_inside in Hin1 as (s1 & e1 & Hin1 & Hx1).
    apply in_some_exon_inside in Hin2 as (s2 & e2 & Hin2 & Hx2).
    fold E. unfold local_starts. destruct Hs as [Hp|Hm].
    + rewrite Hp. simpl. subst E. rewrite zip3_from by done.
      rewrite start_stop_fold_plus. simpl.
      destruct (triples_from_elem 0 _ _ _ Hin1) as [ls Hls].
      apply fold_pick_is_Some. right. eauto.
    + rewrite Hm. simpl. subst E. rewrite zip3_back by done.
      rewrite start_stop_fold_minus by done. simpl.
      destruct (triples_back_elem _ _ _ Hin2) as [ls Hls].
      apply fold_pick_is_Some. right. eauto.
  - exists (span_sum E). rewrite (proj2 (get_start_stop_trans _)). simpl.
    split; [by apply local_ends_max|].
    split; [by apply span_sum_nonneg | done].
Qed.

Lemma Forall2_row_ids txs rows :
  Forall2 row_spec txs rows →
  (λ r, (Tx_ID r, UID r)) <$> rows
  = (λ tx, (Transcript.id tx, Transcript.uid tx)) <$> txs.
Proof.
  induction 1 as [|tx row txs rows (Hid & Huid & _) _ IH]; [done|].
  rewrite !fmap_cons, Hid, Huid. f_equal. exact IH.
Qed.

(** For a table array of well-formed lines and an accepted key, building
    the transcriptome succeeds.  When some line has a chromosome name of at
    most 5 characters, summarising succeeds too, and the summary has one
    row for every such line: the (Tx_ID, UID) pairs of the rows are those
    of these lines, up to the order.  When no line has such a name, no row
    is built and [get_parameters] raises [ValueError]. *)
Theorem summary_of_well_formed_table (tb : list array_line) (key : string) :
  valid_key key →
  Forall (λ l, well_formed_line l = true) tb →
  ∃ tx_dict,
    build_transcriptome tb key = Ok tx_dict
    ∧ (filter short_line tb ≠ [] →
       ∃ rows, get_parameters tx_dict = Ok rows
         ∧ (λ r, (Tx_ID r, UID r)) <$> rows
           ≡ₚ (λ l, (line_tx_id l, line_uid l)) <$> filter short_line tb)
    ∧ (filter short_line tb = [] → get_parameters tx_dict = Raise ValueError).
Proof.
  intros Hkey Hwf.
  assert (Htxs : ∃ txs, Forall2 (λ l tx, build_transcript l = Ok tx) tb txs
                        ∧ Forall summarizable txs).
  { induction Hwf as [|l tb Hl _ (txs & Hall & Hsum)]; [by exists []|].
    destruct (well_formed_summarizable l Hl) as (tx & Htx & Hs).
    exists (tx :: txs). split; by constructor. }
  destruct Htxs as (txs & Hbuilt & Hsum).
  rewrite build_transcriptome_valid by done.
  rewrite (proj2 (map_result_Ok _ _ _) Hbuilt), bind_Ok.
  eexists. split; [done|].
  pose proof (concat_grouping (key_of key) txs) as Hperm.
  fold (transcripts (grouping (key_of key) txs)) in Hperm.
  destruct (get_parameters_loop_rows (grouping (key_of key) txs))
    as (rows & Hrows & Hspec).
  { apply Forall_forall. intros tx Htx. apply list_elem_of_filter in Htx as [_ Htx].
    rewrite Hperm in Htx. by apply (proj1 (Forall_forall _ _) Hsum). }
  assert (Hids : (λ r, (Tx_ID r, UID r)) <$> rows
                 ≡ₚ (λ l, (line_tx_id l, line_uid l)) <$> filter short_line tb).
  { rewrite (Forall2_row_ids _ _ Hspec), Hperm.
    clear Hrows Hspec Hperm Hsum rows.
    induction Hbuilt as [|l tx tb txs Htx _ IH]; [done|].
    destruct (build_transcript_fields l tx Htx) as (Hid & Huid & _ & Hchrom & _).
    rewrite !filter_cons.
    destruct (decide (short_chrom tx)) as [Hs|Hs];
      destruct (decide (short_line l)) as [Hl|Hl];
      unfold short_chrom, short_line in *; rewrite Hchrom in Hs; try done.
    - simpl. rewrite Hid, Huid. constructor. apply IH. by inversion Hwf.
    - apply IH. by inversion Hwf. }
  unfold get_parameters. rewrite Hrows, bind_Ok. split.
  - intros Hsome. destruct rows as [|row rows]; [|by eexists].
    symmetry in Hids. apply Permutation_nil_r in Hids.
    by apply fmap_nil_inv in Hids.
  - intros Hnone. rewrite Hnone in Hids. apply Permutation_nil_r in Hids.
    apply fmap_nil_inv in Hids. by rewrite Hids.
Qed.

Lemma summary_of_well_formed_table_witness :
  ∃ tx_dict rows,
    build_transcriptome duplicate_table "txid" = Ok tx_dict
    ∧ get_parameters tx_dict = Ok rows
    ∧ (λ r, (Tx_ID r, UID r)) <$> rows
      ≡ₚ (λ l, (line_tx_id l, line_uid l)) <$> filter short_line duplicate_table.
Proof.
  destruct (summary_of_well_formed_table duplicate_table "txid")
    as (tx_dict & Hbuilt & Hrows & _).
  - right. left. reflexivity.
  - repeat constructor.
  - destruct Hrows as (rows & Hsum & Hids); [vm_compute; discriminate|].
    by exists tx_dict, rows.
Defined.

(** ** Lines that make the summary fail *)

Lemma get_parameters_flat tx_dict parameters :
  for_each (λ parameters '(tx_class, group),
      for_each get_parameters_body group parameters) tx_dict parameters
  = for_each get_parameters_body (transcripts tx_dict) parameters.
Proof.
  revert parameters.
  induction tx_dict as [|[k g] d IH]; intros parameters; [done|].
  unfold transcripts. simpl. rewrite for_each_app.
  destruct (for_each get_parameters_body g parameters) as [ps|e]; [|done].
  rewrite !bind_Ok. apply IH.
Qed.

Lemma for_each_body_raises txs parameters tx :
  tx ∈ txs → short_chrom tx → (∃ e, parameters_of tx = Raise e) →
  ∃ e, for_each get_parameters_body txs parameters = Raise e.
Proof.
  intros Hin Hshort [e He]. revert parameters.
  induction txs as [|x txs IH]; intros parameters.
  - by apply elem_of_nil in Hin.
  - simpl. destruct (get_parameters_body parameters x) as [ps|e'] eqn:Hx;
      [|by eexists].
    rewrite bind_Ok. apply elem_of_cons in Hin as [->|Hin]; [|by apply IH].
    rewrite get_parameters_body_short, He in Hx by done. done.
Qed.

Lemma parameters_of_no_ends tx :
  Transcript.trans_ends tx = [] → ∃ e, parameters_of tx = Raise e.
Proof.
  intros Hends.
  assert (Hlen : builtin_len tx = Raise IndexError).
  { unfold builtin_len, Transcript.len. by rewrite Hends. }
  unfold parameters_of. rewrite Hlen.
  destruct (1 <? length (sorted (Transcript.trans_starts tx)))%nat;
    destruct (positive_field (Transcript.ctis tx)) as [[|]|e];
    by eexists.
Qed.

Lemma build_no_local_exons l tx :
  build_transcript l = Ok tx →
  line_exonStarts l = [] ∨ (line_strand l ≠ "+" ∧ line_strand l ≠ "-") →
  Transcript.trans_ends tx = [].
Proof.
  unfold build_transcript, Transcript.init,
    Transcript.get_transcriptomic_coordinates. simpl. intros Hb Hl.
  assert (Hb' : ∃ tx0, Transcript.trans_ends tx0 = []
                       ∧ tx = Transcript.get_start_stop tx0).
  { destruct Hl as [Hnil|[Hp Hm]].
    - rewrite Hnil in Hb. simpl in Hb.
      destruct (String.eqb (line_strand l) "+");
        [|destruct (String.eqb (line_strand l) "-")];
        rewrite ?bind_Ok in Hb; injection Hb as <-;
        (eexists; split; [|reflexivity]); reflexivity.
    - apply String.eqb_neq in Hp, Hm. rewrite Hp, Hm, bind_Ok in Hb.
      injection Hb as <-. (eexists; split; [|reflexivity]); reflexivity. }
  destruct Hb' as (tx0 & Hends & ->).
  by rewrite (proj2 (get_start_stop_trans tx0)).
Qed.

(** A line without exons, or on a strand other than plus and minus, with a
    chromosome name of at most 5 characters, makes the summary of any
    transcriptome built from its table array fail: [get_parameters] raises
    and returns no row at all. *)
Theorem summary_fails_without_local_exons (tb : list array_line) (key : string)
  (tx_dict : list (pykey * list Transcript.t)) (l : array_line) :
  build_transcriptome tb key = Ok tx_dict →
  l ∈ tb → short_line l →
  line_exonStarts l = [] ∨ (line_strand l ≠ "+" ∧ line_strand l ≠ "-") →
  ∃ e, get_parameters tx_dict = Raise e.
Proof.
  intros Hbuild Hin Hshort Hl.
  destruct (build_transcriptome_Ok _ _ _ Hbuild) as (Hkey & txs & Hbuilt & ->).
  apply list_elem_of_lookup in Hin as [i Hi].
  destruct (Forall2_lookup_l _ _ _ _ _ Hbuilt Hi) as (tx & Htxi & Htx).
  unfold get_parameters, get_parameters_loop. rewrite get_parameters_flat.
  destruct (for_each_body_raises (transcripts (grouping (key_of key) txs)) [] tx)
    as [e He].
  - unfold transcripts. rewrite concat_grouping.
    apply list_elem_of_lookup. eauto.
  - destruct (build_transcript_fields l tx Htx) as (_ & _ & _ & Hchrom & _).
    unfold short_chrom. by rewrite Hchrom.
  - apply parameters_of_no_ends. by apply (build_no_local_exons l).
  - exists e. by rewrite He.
Qed.

Lemma summary_fails_without_local_exons_witness :
  ∃ e, get_parameters
         [(KStr "NR_9",
           [Transcript.mk "NR_9" 1 "chr2" "." 5 9 7 7 [5] [9] "H" [] []
              (Some "non-coding") (Some (-1)) (Some (-1))])]
       = Raise e.
Proof.
  apply (summary_fails_without_local_exons
           [mk_line 1 "NR_9" "chr2" "." 5 9 7 7 [5] [9] "H"] "txid" _
           (mk_line 1 "NR_9" "chr2" "." 5 9 7 7 [5] [9] "H")).
  - reflexivity.
  - left.
  - unfold short_line. simpl. lia.
  - right. split; discriminate.
Defined.

(** ** The splice sites of the summary *)

Lemma starts_from_Sorted b (E : list (Z * Z)) :
  Forall (λ x, x.1 ≤ x.2) E → Sorted Z.le (starts_from b E).
Proof.
  intros Hall. revert b. induction Hall as [|[s e] E Hx _ IH]; intros b; simpl.
  - constructor.
  - constructor; [apply IH|]. destruct E as [|[s' e'] E]; simpl; constructor.
    simpl in Hx. lia.
Qed.

Lemma Forall_reverse_valid (E : list (Z * Z)) :
  Forall (λ x, x.1 ≤ x.2) E → Forall (λ x, x.1 ≤ x.2) (reverse E).
Proof. intros H. by apply Forall_reverse. Qed.

(** The sorted local starts are the running offsets in the order of
    transcription, on both strands. *)
Lemma sorted_local_starts strand (E : list (Z * Z)) :
  Forall (λ x, x.1 ≤ x.2) E →
  sorted (local_starts strand E) = starts_from 0 (transcribed strand E).
Proof.
  intros Hall. unfold sorted, local_starts, transcribed.
  apply (Sorted_unique Z.le).
  - apply Sorted_merge_sort. apply _.
  - destruct (String.eqb strand "+"); apply starts_from_Sorted; [done|].
    by apply Forall_reverse_valid.
  - rewrite merge_sort_Permutation. destruct (String.eqb strand "+"); [done|].
    rewrite <- starts_back_reverse. by rewrite reverse_Permutation.
Qed.

Lemma starts_from_last b (E : list (Z * Z)) s e :
  last E = Some (s, e) →
  last (starts_from b E) = Some (b + span_sum E - (e - s)).
Proof.
  intros Hlast. apply last_Some in Hlast as [E0 ->].
  rewrite starts_from_app, span_sum_app. simpl.
  rewrite last_snoc. f_equal. lia.
Qed.

Lemma span_sum_transcribed strand E : span_sum (transcribed strand E) = span_sum E.
Proof.
  unfold transcribed. destruct (String.eqb strand "+"); [done|].
  apply span_sum_reverse.
Qed.

(** For a well-formed line with at least two exons the summary row of its
    transcript exists, its Length is the total exon length, its
    FirstSpliceSite is the length of the first transcribed exon, and its
    LastSpliceSite is Length minus the length of the last transcribed exon:
    the two fields are the transcript positions of the first and the last
    exon junction. *)
Theorem splice_sites_are_junctions (l : array_line) :
  well_formed_line l = true →
  (1 < length (line_exonStarts l))%nat →
  ∃ tx row s1 e1 sn en,
    build_transcript l = Ok tx
    ∧ parameters_of tx = Ok row
    ∧ head (transcribed (line_strand l)
              (zip (line_exonStarts l) (line_exonEnds l))) = Some (s1, e1)
    ∧ last (transcribed (line_strand l)
              (zip (line_exonStarts l) (line_exonEnds l))) = Some (sn, en)
    ∧ Length row = span_sum (zip (line_exonStarts l) (line_exonEnds l))
    ∧ FirstSpliceSite row = VInt (e1 - s1)
    ∧ LastSpliceSite row = VInt (Length row - (en - sn)).
Proof.
  intros Hwf Hn.
  destruct (well_formed_summarizable l Hwf) as (tx & Htx & Hsum).
  assert (Hs : line_strand l = "+" ∨ line_strand l = "-").
  { unfold well_formed_line in Hwf. repeat (apply andb_true_iff in Hwf as [Hwf _]).
    apply orb_true_iff in Hwf as [?|?]; [left|right]; by apply String.eqb_eq. }
  assert (Hvalid : valid_exons (line_exonStarts l) (line_exonEnds l) = true).
  { unfold well_formed_line in Hwf. repeat (apply andb_true_iff in Hwf as [Hwf ?]).
    by apply ascending_exons_valid. }
  pose proof (valid_exons_length _ _ Hvalid) as Hlen.
  pose proof (valid_exons_Forall _ _ Hvalid) as Hall.
  destruct (build_transcript_coordinates l Hs Hlen) as (tx' & Htx' & Hts & Hte).
  rewrite Htx in Htx'. injection Htx' as <-.
  set (E := zip (line_exonStarts l) (line_exonEnds l)) in *.
  set (T := transcribed (line_strand l) E).
  assert (HlenE : (1 < length E)%nat).
  { subst E. rewrite length_zip_with. lia. }
  assert (HlenT : length T = length E).
  { subst T. unfold transcribed. destruct (String.eqb _ _); [done|].
    apply length_reverse. }
  assert (HallT : Forall (λ x, x.1 ≤ x.2) T).
  { subst T. unfold transcribed. destruct (String.eqb _ _); [done|].
    by apply Forall_reverse_valid. }
  destruct T as [|[s1 e1] [|[s2 e2] T']] eqn:HT; simpl in HlenT; try lia.
  destruct (last ((s1, e1) :: (s2, e2) :: T')) as [[sn en]|] eqn:Hlast;
    [|by apply last_None in Hlast].
  assert (Hsorted : sorted (Transcript.trans_starts tx)
                    = starts_from 0 ((s1, e1) :: (s2, e2) :: T')).
  { rewrite Hts, <- HT. by apply sorted_local_starts. }
  destruct (builtin_len_summarizable tx Hsum) as (n & Hblen & Hlenn).
  assert (Hn' : n = span_sum E).
  { assert (Hmax : is_max (span_sum E) (Transcript.trans_ends tx)).
    { rewrite Hte. apply local_ends_max; [done|]. by destruct E. }
    destruct (len_is_max tx) as (n' & Hn1 & Hn2).
    { intros Hnil. destruct Hmax as [Hin _]. rewrite Hnil in Hin.
      by apply elem_of_nil in Hin. }
    rewrite Hlenn in Hn1. injection Hn1 as <-.
    by apply (is_max_unique _ _ _ Hn2 Hmax). }
  assert (Hfirst : getitem (sorted (Transcript.trans_starts tx)) 1 = Ok (e1 - s1)).
  { rewrite Hsorted. simpl starts_from.
    rewrite getitem_second. f_equal; lia. }
  assert (Hlast' : getitem (sorted (Transcript.trans_starts tx)) (-1)
                   = Ok (n - (en - sn))).
  { apply getitem_last. rewrite Hsorted, (starts_from_last 0 _ sn en Hlast).
    f_equal. rewrite Hn'. rewrite <- (span_sum_transcribed (line_strand l) E).
    fold T. rewrite HT. lia. }
  destruct Hsum as ([c Hc] & _).
  assert (Hspliced : (1 <? length (sorted (Transcript.trans_starts tx)))%nat = true).
  { rewrite Hsorted. done. }
  exists tx. unfold parameters_of. rewrite Hspliced, Hc, Hblen, Hfirst, Hlast'.
  simpl positive_field. rewrite !bind_Ok.
  destruct (0 <? c); rewrite ?bind_Ok; eexists _, s1, e1, sn, en;
    (split; [done|]); (split; [done|]); simpl; rewrite Hn'; done.
Qed.

Lemma splice_sites_are_junctions_witness :
  ∃ tx row s1 e1 sn en,
    build_transcript minus_line = Ok tx
    ∧ parameters_of tx = Ok row
    ∧ head (transcribed "-" [(100, 150); (300, 320)]) = Some (s1, e1)
    ∧ last (transcribed "-" [(100, 150); (300, 320)]) = Some (sn, en)
    ∧ Length row = 70
    ∧ FirstSpliceSite row = VInt (e1 - s1)
    ∧ LastSpliceSite row = VInt (Length row - (en - sn)).
Proof.
  apply (splice_sites_are_junctions minus_line).
  - reflexivity.
  - simpl. lia.
Defined.

(** ** Reading the table *)

Example read_table_example :
  read_table_into_array decimal ["#bin"; "name"] table_lines (Some {["NM_2"]})
  = Ok [mk_line 1 "NM_2" "chr7" "-" 500 720 520 710 [500; 700] [550; 720] "H"].
Proof. vm_compute. reflexivity. Qed.

Lemma filter_all {A : Type} (P : A → Prop) `{!∀ x, Decision (P x)} (xs : list A) :
  (∀ x, P x) → filter P xs = xs.
Proof.
  intros HP. induction xs as [|x xs IH]; [done|].
  by rewrite filter_cons_True, IH.
Qed.

Lemma for_each_cons {A S : Type} (body : S → A → result S) x xs s :
  for_each body (x :: xs) s = (body s x ≫= for_each body xs).
Proof. done. Qed.

Section read_table_facts.

Variable int : string → result Z.

Lemma read_table_append_Ok c tb split_line c' tb' :
  read_table_append int (c, tb) split_line = Ok (c', tb') →
  ∃ row, c' = c + 1 ∧ tb' = tb ++ [row] ∧ line_uid row = c
    ∧ split_line !! 0%nat = Some (line_tx_id row).
Proof.
  unfold read_table_append.
  repeat match goal with
         | |- context [mbind _ ?r] =>
             destruct r; [rewrite bind_Ok; cbn beta|done]
         end.
  destruct split_line as [|name [|chrom [|strand rest]]]; try done.
  simpl. intros [= <- <-]. by eexists.
Qed.

Lemma appended_cons c name names row rows :
  line_tx_id row = name → line_uid row = c → appended (c + 1) names rows →
  appended c (name :: names) (row :: rows).
Proof.
  intros Hname Huid [Hnames Huids]. split; [by rewrite fmap_cons, Hname, Hnames|].
  intros [|i] r Hr; simpl in Hr.
  - injection Hr as <-. lia.
  - rewrite (Huids i r Hr). lia.
Qed.

Lemma read_table_loop_all lines c tb c' tb' :
  for_each (read_table_append int) lines (c, tb) = Ok (c', tb') →
  ∃ rows names, tb' = tb ++ rows
    ∧ Forall2 (λ split_line name, split_line !! 0%nat = Some name) lines names
    ∧ appended c names rows.
Proof.
  revert c tb. induction lines as [|sl lines IH]; intros c tb Hloop.
  - injection Hloop as <- <-. exists [], []. rewrite app_nil_r.
    split; [done|]. split; [constructor|]. split; [done|]. intros i row Hi. done.
  - rewrite for_each_cons in Hloop.
    destruct (read_table_append int (c, tb) sl) as [[c1 tb1]|e] eqn:Hsl; [|done].
    rewrite bind_Ok in Hloop.
    apply read_table_append_Ok in Hsl as (row & -> & -> & Huid & Hname).
    destruct (IH _ _ Hloop) as (rows & names & -> & Hnames & Happ).
    exists (row :: rows), (line_tx_id row :: names). rewrite <- app_assoc.
    split; [done|]. split; [by constructor|]. by apply appended_cons.
Qed.

Lemma read_table_loop_selected selected lines c tb c' tb' :
  for_each (read_table_selected int selected) lines (c, tb) = Ok (c', tb') →
  ∃ rows names, tb' = tb ++ rows
    ∧ Forall2 (λ split_line name, split_line !! 0%nat = Some name) lines names
    ∧ appended c (filter (λ name, name ∈ selected) names) rows.
Proof.
  revert c tb. induction lines as [|sl lines IH]; intros c tb Hloop.
  - injection Hloop as <- <-. exists [], []. rewrite app_nil_r.
    split; [done|]. split; [constructor|]. split; [done|]. intros i row Hi. done.
  - rewrite for_each_cons in Hloop.
    assert (Hbody : read_table_selected int selected (c, tb) sl
                    = match sl !! 0%nat with
                      | Some name =>
                          if decide (name ∈ selected)
                          then read_table_append int (c, tb) sl else Ok (c, tb)
                      | None => Raise IndexError
                      end).
    { unfold read_table_selected, column. by destruct (sl !! 0%nat). }
    rewrite Hbody in Hloop. clear Hbody.
    destruct (sl !! 0%nat) as [name|] eqn:Hname; [|done].
    destruct (decide (name ∈ selected)) as [Hin|Hin].
    + destruct (read_table_append int (c, tb) sl) as [[c1 tb1]|e] eqn:Hsl; [|done].
      rewrite bind_Ok in Hloop.
      apply read_table_append_Ok in Hsl as (row & -> & -> & Huid & Hname').
      rewrite Hname in Hname'. injection Hname' as ->.
      destruct (IH _ _ Hloop) as (rows & names & -> & Hnames & Happ).
      exists (row :: rows), (line_tx_id row :: names). rewrite <- app_assoc.
      split; [done|]. split; [by constructor|].
      rewrite filter_cons_True by done. by apply appended_cons.
    + rewrite bind_Ok in Hloop.
      destruct (IH _ _ Hloop) as (rows & names & -> & Hnames & Happ).
      exists rows, (name :: names).
      split; [done|]. split; [by constructor|].
      by rewrite filter_cons_False.
Qed.

(** What a successful read returns, for both branches. *)
Lemma read_table_Ok first_line lines selected_transcripts tb :
  read_table_into_array int first_line lines selected_transcripts = Ok tb →
  (∃ word rest, first_line = word :: rest ∧ str_contains "bin" word = true)
  ∧ ∃ names,
      Forall2 (λ split_line name, split_line !! 0%nat = Some name) lines names
      ∧ appended 1
          (filter (λ name, truthy selected_transcripts = true →
                           name ∈ default ∅ selected_transcripts) names)
          tb.
Proof.
  unfold read_table_into_array, column. intros Hread.
  destruct first_line as [|word rest];
    [by destruct (truthy selected_transcripts)|].
  change ((word :: rest) !! 0%nat) with (Some word) in Hread.
  cbv beta iota in Hread. rewrite !bind_Ok in Hread.
  destruct (str_contains "bin" word) eqn:Hbin;
    [|by destruct (truthy selected_transcripts)].
  split; [by eexists _, _|].
  destruct (truthy selected_transcripts) eqn:Hsel.
  - destruct (for_each _ lines (1, [])) as [[c' tb']|e] eqn:Hloop; [|done].
    rewrite bind_Ok in Hread. injection Hread as ->.
    apply read_table_loop_selected in Hloop as (rows & names & -> & Hnames & Happ).
    exists names. split; [done|]. simpl.
    erewrite list_filter_iff; [exact Happ|]. intros name. simpl. tauto.
  - destruct (for_each _ lines (1, [])) as [[c' tb']|e] eqn:Hloop; [|done].
    rewrite bind_Ok in Hread. injection Hread as ->.
    apply read_table_loop_all in Hloop as (rows & names & -> & Hnames & Happ).
    exists names. split; [done|]. simpl.
    by rewrite filter_all.
Qed.

End read_table_facts.

Lemma grouping_NoDup {A : Type} (kf : A → pykey) xs :
  NoDup (kf <$> xs) → grouping kf xs = (λ x, (kf x, [x])) <$> xs.
Proof.
  induction xs as [|x xs IH] using rev_ind; intros Hnd; [done|].
  rewrite fmap_app in Hnd. apply NoDup_app in Hnd as (Hnd & Hnot & _).
  unfold grouping in *. rewrite fold_left_app, IH by done. simpl.
  unfold group_add.
  assert (Hkey : kf x ∉ ((λ x0, (kf x0, [x0])) <$> xs).*1).
  { rewrite <- list_fmap_compose. intros Hin. apply (Hnot (kf x)); [done|].
    simpl. left. }
  rewrite (proj2 (dict_get_None _ _) Hkey), dict_set_new by done.
  by rewrite fmap_app.
Qed.

Lemma singles_singletons {A : Type} (kf : A → pykey) (xs : list A) :
  singles ((λ x, (kf x, [x])) <$> xs) = xs.
Proof.
  induction xs as [|x xs IH]; [done|].
  rewrite fmap_cons, singles_cons, IH. done.
Qed.

(** The unique ids of a table array that was read are 1, 2, ... in the
    order of the rows, so no two rows share one. *)
Theorem read_table_unique_ids (int : string → result Z)
  (first_line : list string) (lines : list (list string))
  (selected_transcripts : option (gset string)) (tb : list array_line) :
  read_table_into_array int first_line lines selected_transcripts = Ok tb →
  (∀ i row, tb !! i = Some row → line_uid row = Z.of_nat i + 1)
  ∧ NoDup (line_uid <$> tb).
Proof.
  intros Hread.
  apply read_table_Ok in Hread as (_ & names & _ & _ & Huids).
  assert (H : ∀ i row, tb !! i = Some row → line_uid row = Z.of_nat i + 1).
  { intros i row Hi. rewrite (Huids i row Hi). lia. }
  split; [done|]. apply NoDup_alt. intros i j uid Hi Hj.
  rewrite list_lookup_fmap in Hi, Hj.
  destruct (tb !! i) as [ri|] eqn:Hri; [|done].
  destruct (tb !! j) as [rj|] eqn:Hrj; [|done].
  simpl in Hi, Hj. injection Hi as Hi. injection Hj as Hj.
  rewrite (H i ri Hri) in Hi. rewrite (H j rj Hrj) in Hj. lia.
Qed.

Lemma read_table_unique_ids_witness :
  NoDup (line_uid <$>
           [mk_line 1 "NM_1" "chr1" "+" 100 320 120 310 [100; 300] [150; 320] "G";
            mk_line 2 "NM_2" "chr7" "-" 500 720 520 710 [500; 700] [550; 720] "H"]).
Proof.
  apply (read_table_unique_ids decimal ["#bin"; "name"] table_lines None).
  vm_compute. reflexivity.
Defined.

(** A successful read had a header whose first word contains [bin], and
    every line had a first column.  With a selection that is a non-empty
    set, the rows are, in the order of the file, those of the lines whose
    first column is selected; with no selection, and also with an empty
    set, every line gives a row. *)
Theorem read_table_selection (int : string → result Z)
  (first_line : list string) (lines : list (list string))
  (selected_transcripts : option (gset string)) (tb : list array_line) :
  read_table_into_array int first_line lines selected_transcripts = Ok tb →
  (∃ word rest, first_line = word :: rest ∧ str_contains "bin" word = true)
  ∧ ∃ names,
      Forall2 (λ split_line name, split_line !! 0%nat = Some name) lines names
      ∧ line_tx_id <$> tb
        = filter (λ name, truthy selected_transcripts = true →
                          name ∈ default ∅ selected_transcripts) names
      ∧ (truthy selected_transcripts = false → length tb = length lines).
Proof.
  intros Hread.
  apply read_table_Ok in Hread as (Hheader & names & Hnames & Htb & _).
  split; [done|]. exists names. split; [done|]. split; [done|].
  intros Hsel. rewrite <- (length_fmap line_tx_id), Htb.
  rewrite filter_all by (intros name; by rewrite Hsel).
  symmetry. by eapply Forall2_length.
Qed.

Lemma read_table_selection_witness :
  ∃ names,
    Forall2 (λ split_line name, split_line !! 0%nat = Some name) table_lines names
    ∧ ["NM_1"; "NM_2"]
      = filter (λ name, truthy (Some (∅ : gset string)) = true →
                        name ∈ default ∅ (Some (∅ : gset string))) names
    ∧ (truthy (Some (∅ : gset string)) = false → 2%nat = length table_lines).
Proof.
  destruct (read_table_selection decimal ["#bin"; "name"] table_lines (Some ∅)
           [mk_line 1 "NM_1" "chr1" "+" 100 320 120 310 [100; 300] [150; 320] "G";
            mk_line 2 "NM_2" "chr7" "-" 500 720 520 710 [500; 700] [550; 720] "H"])
    as [_ H].
  - vm_compute. reflexivity.
  - exact H.
Defined.

(** Keyed by unique id, which is the default key, the transcriptome of a
    table array that was read has one group per row, in the order of the
    rows, and the first loop of [gen2tr] writes the exons of every
    transcript. *)
Theorem unique_id_key_keeps_every_transcript (int : string → result Z)
  (first_line : list string) (lines : list (list string))
  (selected_transcripts : option (gset string)) (tb : list array_line)
  (tx_dict : list (pykey * list Transcript.t)) :
  read_table_into_array int first_line lines selected_transcripts = Ok tb →
  build_transcriptome tb "uid" = Ok tx_dict →
  ∃ txs, Forall2 (λ l tx, build_transcript l = Ok tx) tb txs
    ∧ tx_dict = (λ tx, (KInt (Transcript.uid tx), [tx])) <$> txs
    ∧ gen2tr_bed_key tx_dict = concat (exon_lines <$> txs).
Proof.
  intros Hread Hbuild.
  apply read_table_Ok in Hread as (_ & names & _ & _ & Huids).
  destruct (build_transcriptome_Ok _ _ _ Hbuild) as (_ & txs & Hbuilt & ->).
  exists txs. split; [done|].
  assert (Hnd : NoDup (key_of "uid" <$> txs)).
  { apply NoDup_alt. intros i j k Hi Hj. rewrite list_lookup_fmap in Hi, Hj.
    destruct (txs !! i) as [ti|] eqn:Hti; [|done].
    destruct (txs !! j) as [tj|] eqn:Htj; [|done].
    destruct (Forall2_lookup_r _ _ _ _ _ Hbuilt Hti) as (li & Hli & Hbi).
    destruct (Forall2_lookup_r _ _ _ _ _ Hbuilt Htj) as (lj & Hlj & Hbj).
    destruct (build_transcript_fields _ _ Hbi) as (_ & Hui & _).
    destruct (build_transcript_fields _ _ Hbj) as (_ & Huj & _).
    simpl in Hi, Hj. injection Hi as Hi. injection Hj as Hj.
    unfold key_of in Hi, Hj. simpl in Hi, Hj. subst k. injection Hj as Hj.
    rewrite Hui, Huj, (Huids i li Hli), (Huids j lj Hlj) in Hj. lia. }
  rewrite (grouping_NoDup _ _ Hnd). split; [done|].
  by rewrite gen2tr_bed_key_eq, singles_singletons.
Qed.

Lemma unique_id_key_keeps_every_transcript_witness :
  ∃ txs,
    Forall2 (λ l tx, build_transcript l = Ok tx)
      [mk_line 1 "NM_1" "chr1" "+" 100 320 120 310 [100; 300] [150; 320] "G";
       mk_line 2 "NM_2" "chr7" "-" 500 720 520 710 [500; 700] [550; 720] "H"] txs
    ∧ length txs = 2%nat.
Proof.
  destruct (unique_id_key_keeps_every_transcript decimal ["#bin"; "name"]
              table_lines None _ _ eq_refl eq_refl) as (txs & Hall & _).
  exists txs. split; [exact Hall|].
  apply Forall2_length in Hall. by rewrite <- Hall.
Defined.

(** ** A coding region that starts at the first base of the transcript *)

(** The start codon field of a coding transcript with ascending exons, from
    any exon that contains the CDS boundary of the 5' side. *)
Lemma built_ctis l t :
  line_strand l = "+" ∨ line_strand l = "-" →
  ascending_exons (line_exonStarts l) (line_exonEnds l) = true →
  line_cdsStart l ≠ line_cdsEnd l →
  (if String.eqb (line_strand l) "+"
   then t ∈ triples_from 0 (zip (line_exonStarts l) (line_exonEnds l))
        ∧ inside (line_cdsStart l) t = true
   else t ∈ triples_back (zip (line_exonStarts l) (line_exonEnds l))
        ∧ inside (line_cdsEnd l) t = true) →
  ∃ tx, build_transcript l = Ok tx
    ∧ Transcript.type tx = Some "coding"
    ∧ Transcript.ctis tx
      = Some (if String.eqb (line_strand l) "+"
              then from_start (line_cdsStart l) t
              else from_end (line_cdsEnd l) t).
Proof.
  intros Hstrand Hasc Hne Ht.
  pose proof (valid_exons_length _ _ (ascending_exons_valid _ _ Hasc)) as Hlen.
  destruct (ascending_exons_chain _ _ Hasc) as [lo Hchain].
  rewrite (build_transcript_eq l Hstrand Hlen).
  eexists. split; [done|].
  unfold Transcript.get_start_stop. simpl.
  rewrite (proj2 (Z.eqb_neq _ _) Hne).
  destruct Hstrand as [Hs|Hs]; rewrite Hs in *; unfold local_starts; simpl in *;
    destruct Ht as [Hin Hinside].
  - rewrite zip3_from by done. rewrite start_stop_fold_plus. simpl.
    split; [done|]. apply fold_pick; [|right; eauto].
    intros t' Ht' HP. eapply triples_from_coherent; eauto.
  - rewrite zip3_back by done. rewrite start_stop_fold_minus by done. simpl.
    split; [done|]. apply fold_pick; [|right; eauto].
    intros t' Ht' HP. eapply triples_back_coherent; eauto.
Qed.

Lemma triples_back_last (E : list (Z * Z)) s e :
  last E = Some (s, e) → (s, e, 0) ∈ triples_back E.
Proof.
  induction E as [|[s0 e0] E IH]; [done|].
  destruct E as [|x E].
  - intros [= -> ->]. left.
  - rewrite last_cons_cons. intros H. right. by apply IH.
Qed.

(** A well-formed coding line whose coding region starts at the first base
    of the transcript (plus strand: the CDS start is the start of the first
    exon; minus strand: the CDS end is the end of the last exon) gives a
    transcript of type [coding] with start codon position 0, and the
    summary row of this transcript has the text [-1] for both ATG and Stop,
    as for a non-coding transcript. *)
Theorem leaderless_coding_summarised_as_noncoding (l : array_line) (s e : Z) :
  well_formed_line l = true →
  line_cdsStart l ≠ line_cdsEnd l →
  (if String.eqb (line_strand l) "+"
   then head (zip (line_exonStarts l) (line_exonEnds l)) = Some (s, e)
        ∧ line_cdsStart l = s
   else last (zip (line_exonStarts l) (line_exonEnds l)) = Some (s, e)
        ∧ line_cdsEnd l = e) →
  ∃ tx row, build_transcript l = Ok tx
    ∧ Transcript.type tx = Some "coding"
    ∧ Transcript.ctis tx = Some 0
    ∧ parameters_of tx = Ok row
    ∧ ATG row = VStr "-1" ∧ Stop row = VStr "-1".
Proof.
  intros Hwf Hne Hfirst.
  destruct (well_formed_summarizable l Hwf) as (tx & Htx & Hsum).
  assert (Hs : line_strand l = "+" ∨ line_strand l = "-").
  { unfold well_formed_line in Hwf. repeat (apply andb_true_iff in Hwf as [Hwf _]).
    apply orb_true_iff in Hwf as [?|?]; [left|right]; by apply String.eqb_eq. }
  assert (Hasc : ascending_exons (line_exonStarts l) (line_exonEnds l) = true).
  { unfold well_formed_line in Hwf. by repeat (apply andb_true_iff in Hwf as [Hwf ?]). }
  pose proof (valid_exons_Forall _ _ (ascending_exons_valid _ _ Hasc)) as Hall.
  set (E := zip (line_exonStarts l) (line_exonEnds l)) in *.
  assert (Hse : s ≤ e).
  { assert (Hin : (s, e) ∈ E).
    { destruct (String.eqb (line_strand l) "+"); destruct Hfirst as [Hf _].
      - destruct E as [|x E']; [done|]. injection Hf as ->. left.
      - by apply last_Some_elem_of. }
    by apply (proj1 (Forall_forall _ _) Hall (s, e)). }
  destruct (built_ctis l (s, e, 0) Hs Hasc Hne) as (tx' & Htx' & Htype & Hctis).
  { fold E. unfold inside.
    destruct (String.eqb (line_strand l) "+"); destruct Hfirst as [Hf Hcds];
      rewrite Hcds.
    - split.
      + destruct E as [|[s0 e0] E']; [done|]. injection Hf as -> ->. left.
      + apply andb_true_iff. split; apply Z.leb_le; lia.
    - split; [by apply triples_back_last|].
      apply andb_true_iff. split; apply Z.leb_le; lia. }
  rewrite Htx in Htx'. injection Htx' as <-.
  assert (Hzero : Transcript.ctis tx = Some 0).
  { rewrite Hctis. f_equal.
    destruct (String.eqb (line_strand l) "+"); destruct Hfirst as [_ ->];
      simpl; lia. }
  destruct (parameters_of_spec tx Hsum) as (row & Hrow & Hspec).
  destruct Hspec as (_ & _ & _ & _ & Hatg). rewrite Hzero in Hatg.
  rewrite decide_False in Hatg by lia.
  exists tx, row. by destruct Hatg.
Qed.

Lemma leaderless_coding_summarised_as_noncoding_witness :
  ∃ tx row,
    build_transcript
      (mk_line 1 "NM_1" "chr1" "+" 100 320 100 310 [100; 300] [150; 320] "G")
    = Ok tx
    ∧ Transcript.type tx = Some "coding"
    ∧ Transcript.ctis tx = Some 0
    ∧ parameters_of tx = Ok row
    ∧ ATG row = VStr "-1" ∧ Stop row = VStr "-1".
Proof.
  apply (leaderless_coding_summarised_as_noncoding
           (mk_line 1 "NM_1" "chr1" "+" 100 320 100 310 [100; 300] [150; 320] "G")
           100 150).
  - reflexivity.
  - simpl. lia.
  - split; reflexivity.
Defined.

(** ** Strand symmetry *)

Lemma zip_mirror M (gs ge : list Z) :
  length gs = length ge →
  zip (reverse ((λ e, M - e) <$> ge)) (reverse ((λ s, M - s) <$> gs))
  = reverse (mirror_pair M <$> zip gs ge).
Proof.
  intros Hlen. rewrite zip_reverse by (rewrite !length_fmap; done). f_equal.
  revert ge Hlen. induction gs as [|s gs IH]; intros [|e ge] Hlen; try done.
  simpl. f_equal. apply IH. simpl in Hlen. lia.
Qed.

Lemma span_sum_mirror M E : span_sum (mirror_pair M <$> E) = span_sum E.
Proof.
  induction E as [|[s e] E IH]; [done|].
  rewrite fmap_cons. cbn [span_sum mirror_pair fst snd]. rewrite IH. lia.
Qed.

Lemma starts_from_mirror M b E :
  starts_from b (mirror_pair M <$> E) = starts_from b E.
Proof.
  revert b. induction E as [|[s e] E IH]; intros b; [done|].
  rewrite fmap_cons. cbn [starts_from mirror_pair fst snd].
  f_equal. rewrite IH. f_equal. lia.
Qed.

Lemma ends_from_mirror M b E :
  ends_from b (mirror_pair M <$> E) = ends_from b E.
Proof.
  revert b. induction E as [|[s e] E IH]; intros b; [done|].
  rewrite fmap_cons. cbn [ends_from mirror_pair fst snd].
  f_equal; [lia|]. rewrite IH. f_equal. lia.
Qed.

Lemma starts_back_of_reverse E : starts_back (reverse E) = reverse (starts_from 0 E).
Proof. by rewrite <- starts_back_reverse, reverse_involutive. Qed.

Lemma ends_back_of_reverse E : ends_back (reverse E) = reverse (ends_from 0 E).
Proof. by rewrite <- ends_back_reverse, reverse_involutive. Qed.

Lemma starts_from_of_reverse E : starts_from 0 (reverse E) = reverse (starts_back E).
Proof. by rewrite <- starts_back_reverse, reverse_involutive. Qed.

Lemma ends_from_of_reverse E : ends_from 0 (reverse E) = reverse (ends_back E).
Proof. by rewrite <- ends_back_reverse, reverse_involutive. Qed.

(** The local coordinates of the mirrored exons on the other strand are
    those of the exons, in reverse order. *)
Lemma local_mirror M strand E :
  strand = "+" ∨ strand = "-" →
  local_starts (if String.eqb strand "+" then "-" else "+")
    (reverse (mirror_pair M <$> E)) = reverse (local_starts strand E)
  ∧ local_ends (if String.eqb strand "+" then "-" else "+")
      (reverse (mirror_pair M <$> E)) = reverse (local_ends strand E).
Proof.
  unfold local_starts, local_ends. intros [-> | ->]; simpl.
  - by rewrite starts_back_of_reverse, ends_back_of_reverse,
      starts_from_mirror, ends_from_mirror.
  - rewrite starts_from_of_reverse, ends_from_of_reverse.
    rewrite <- !starts_back_reverse, <- !ends_back_reverse.
    rewrite <- !fmap_reverse, starts_from_mirror, ends_from_mirror. done.
Qed.

Lemma zip3_reverse {A B C : Type} (xs : list A) (ys : list B) (zs : list C) :
  length xs = length ys → length ys = length zs →
  zip3 (reverse xs) (reverse ys) (reverse zs) = reverse (zip3 xs ys zs).
Proof.
  revert ys zs. induction xs as [|x xs IH]; intros [|y ys] [|z zs] H1 H2;
    try done.
  simpl in H1, H2. rewrite !reverse_cons. simpl zip3. rewrite reverse_cons.
  rewrite <- IH by lia.
  assert (Happ : ∀ (a : list A) (b : list B) (c : list C) x y z,
            length a = length b → length b = length c →
            zip3 (a ++ [x]) (b ++ [y]) (c ++ [z]) = zip3 a b c ++ [(x, y, z)]).
  { clear. induction a as [|a0 a IH]; intros [|b0 b] [|c0 c] x y z H1 H2;
      try done.
    simpl in *. f_equal. apply IH; lia. }
  apply Happ; rewrite !length_reverse; lia.
Qed.

Lemma zip3_mirror M (gs ge ts : list Z) :
  length gs = length ge →
  zip3 ((λ e, M - e) <$> ge) ((λ s, M - s) <$> gs) ts
  = mirror_triple M <$> zip3 gs ge ts.
Proof.
  revert ge ts. induction gs as [|s gs IH]; intros [|e ge] [|t ts] Hlen;
    try done.
  simpl. f_equal. apply IH. simpl in Hlen. lia.
Qed.

Lemma fold_pick_fmap {A B : Type} (g : A → B) (P : B → bool) (f : B → Z)
  (xs : list A) acc :
  fold_left (pick P f) (g <$> xs) acc
  = fold_left (pick (λ x, P (g x)) (λ x, f (g x))) xs acc.
Proof. revert acc. induction xs as [|x xs IH]; intros acc; simpl; [done|]. apply IH. Qed.

Lemma fold_pick_ext {A : Type} (P P' : A → bool) (f f' : A → Z) (xs : list A) acc :
  (∀ x, P x = P' x) → (∀ x, f x = f' x) →
  fold_left (pick P f) xs acc = fold_left (pick P' f') xs acc.
Proof.
  intros HP Hf. revert acc. induction xs as [|x xs IH]; intros acc; simpl; [done|].
  rewrite IH. unfold pick. by rewrite HP, Hf.
Qed.

Lemma fold_pick_none {A : Type} (P : A → bool) (f : A → Z) (xs : list A) acc :
  (∀ x, x ∈ xs → P x = false) → fold_left (pick P f) xs acc = acc.
Proof.
  revert acc. induction xs as [|x xs IH]; intros acc H; simpl; [done|].
  rewrite IH by (intros y Hy; apply H; by right).
  unfold pick. rewrite H; [done|left].
Qed.

(** When all elements that satisfy [P] agree on [f], the order of the loop
    does not matter. *)
Lemma fold_pick_reverse {A : Type} (P : A → bool) (f : A → Z) (xs : list A) acc :
  (∀ x y, x ∈ xs → y ∈ xs → P x = true → P y = true → f x = f y) →
  fold_left (pick P f) (reverse xs) acc = fold_left (pick P f) xs acc.
Proof.
  intros Hco. destruct (existsb P xs) eqn:Hex.
  - apply existsb_exists in Hex as (x & Hx & HPx). apply list_elem_of_In in Hx.
    rewrite (fold_pick P f xs acc (f x)); [|by eauto|right; by eauto].
    apply fold_pick.
    + intros y Hy HPy. rewrite elem_of_reverse in Hy. by apply Hco.
    + right. exists x. split; [by rewrite elem_of_reverse|done].
  - assert (Hnone : ∀ x, x ∈ xs → P x = false).
    { intros x Hx. destruct (P x) eqn:HPx; [|done].
      assert (existsb P xs = true); [|congruence].
      apply existsb_exists. exists x. split; [by apply list_elem_of_In|done]. }
    rewrite !fold_pick_none; [done|done|].
    intros x Hx. rewrite elem_of_reverse in Hx. by apply Hnone.
Qed.

Lemma inside_mirror M x t : inside (M - x) (mirror_triple M t) = inside x t.
Proof.
  destruct t as [[s e] ls]. unfold inside. simpl.
  apply Bool.eq_iff_eq_true. rewrite !andb_true_iff, !Z.leb_le. lia.
Qed.

Lemma from_end_mirror M x t : from_end (M - x) (mirror_triple M t) = from_start x t.
Proof. destruct t as [[s e] ls]. simpl. lia. Qed.

Lemma from_start_mirror M x t : from_start (M - x) (mirror_triple M t) = from_end x t.
Proof. destruct t as [[s e] ls]. simpl. lia. Qed.

Lemma fold_pick_mirror_end M x (X : list (Z * Z * Z)) acc :
  (∀ t1 t2, t1 ∈ X → t2 ∈ X → inside x t1 = true → inside x t2 = true →
            from_start x t1 = from_start x t2) →
  fold_left (pick (inside (M - x)) (from_end (M - x)))
    (reverse (mirror_triple M <$> X)) acc
  = fold_left (pick (inside x) (from_start x)) X acc.
Proof.
  intros Hco. rewrite <- fmap_reverse, fold_pick_fmap.
  rewrite (fold_pick_ext _ (inside x) _ (from_start x))
    by (intros t; first [apply inside_mirror | apply from_end_mirror]).
  by apply fold_pick_reverse.
Qed.

Lemma fold_pick_mirror_start M x (X : list (Z * Z * Z)) acc :
  (∀ t1 t2, t1 ∈ X → t2 ∈ X → inside x t1 = true → inside x t2 = true →
            from_end x t1 = from_end x t2) →
  fold_left (pick (inside (M - x)) (from_start (M - x)))
    (reverse (mirror_triple M <$> X)) acc
  = fold_left (pick (inside x) (from_end x)) X acc.
Proof.
  intros Hco. rewrite <- fmap_reverse, fold_pick_fmap.
  rewrite (fold_pick_ext _ (inside x) _ (from_end x))
    by (intros t; first [apply inside_mirror | apply from_start_mirror]).
  by apply fold_pick_reverse.
Qed.

(** Strand symmetry.  Mirroring a line with ascending exons to the other
    strand gives a transcript with the same local exon coordinates, in the
    reverse order of the exons, and the same type, start codon position and
    stop codon position. *)
Theorem strand_symmetry (M : Z) (l : array_line) :
  line_strand l = "+" ∨ line_strand l = "-" →
  ascending_exons (line_exonStarts l) (line_exonEnds l) = true →
  ∃ tx tx',
    build_transcript l = Ok tx
    ∧ build_transcript (mirror_line M l) = Ok tx'
    ∧ Transcript.trans_starts tx' = reverse (Transcript.trans_starts tx)
    ∧ Transcript.trans_ends tx' = reverse (Transcript.trans_ends tx)
    ∧ Transcript.type tx' = Transcript.type tx
    ∧ Transcript.ctis tx' = Transcript.ctis tx
    ∧ Transcript.stop tx' = Transcript.stop tx.
Proof.
  intros Hs Hasc.
  pose proof (valid_exons_length _ _ (ascending_exons_valid _ _ Hasc)) as Hlen.
  destruct (ascending_exons_chain _ _ Hasc) as [lo Hchain].
  assert (Hs' : line_strand (mirror_line M l) = "+"
                ∨ line_strand (mirror_line M l) = "-").
  { simpl. destruct Hs as [-> | ->]; simpl; auto. }
  assert (Hlen' : length (line_exonStarts (mirror_line M l))
                  = length (line_exonEnds (mirror_line M l))).
  { simpl. rewrite !length_reverse, !length_fmap. done. }
  rewrite (build_transcript_eq l Hs Hlen).
  rewrite (build_transcript_eq (mirror_line M l) Hs' Hlen').
  eexists _, _. split; [done|]. split; [done|].
  rewrite !(proj1 (get_start_stop_trans _)), !(proj2 (get_start_stop_trans _)).
  cbn [mirror_line line_uid line_tx_id line_chrom line_strand line_txStart
       line_txEnd line_cdsStart line_cdsEnd line_exonStarts line_exonEnds
       line_gene_id Transcript.trans_starts Transcript.trans_ends].
  rewrite (zip_mirror M _ _ Hlen).
  set (E := zip (line_exonStarts l) (line_exonEnds l)) in *.
  destruct (local_mirror M (line_strand l) E Hs) as [Hstarts Hends].
  rewrite Hstarts, Hends. split; [done|]. split; [done|].
  unfold Transcript.get_start_stop, Transcript.with_coding.
  cbn [Transcript.id Transcript.uid Transcript.chrom Transcript.strand
       Transcript.txs Transcript.txe Transcript.cdss Transcript.cdse
       Transcript.genomic_starts Transcript.genomic_ends Transcript.gid
       Transcript.trans_starts Transcript.trans_ends Transcript.type
       Transcript.ctis Transcript.stop].
  assert (Heqb : (M - line_cdsEnd l =? M - line_cdsStart l)
                 = (line_cdsStart l =? line_cdsEnd l)).
  { apply Bool.eq_iff_eq_true. rewrite !Z.eqb_eq. lia. }
  rewrite Heqb. destruct (line_cdsStart l =? line_cdsEnd l); [done|].
  assert (HlenE : length (line_exonEnds l)
                  = length (local_starts (line_strand l) E)).
  { unfold local_starts. destruct (String.eqb _ _);
      rewrite ?length_starts_from, ?length_starts_back;
      subst E; rewrite length_zip_with; lia. }
  rewrite zip3_reverse by (rewrite !length_fmap; lia).
  rewrite (zip3_mirror M _ _ _ Hlen).
  unfold local_starts in *. destruct Hs as [Hp|Hm].
  - rewrite Hp in *. cbn [String.eqb Ascii.eqb Bool.eqb]. subst E.
    rewrite zip3_from by done.
    rewrite start_stop_fold_minus by done. rewrite start_stop_fold_plus.
    rewrite !fold_pick_mirror_end; [done| |];
      intros t1 t2 H1 H2 Hi1 Hi2; by eapply triples_from_coherent.
  - rewrite Hm in *. cbn [String.eqb Ascii.eqb Bool.eqb]. subst E.
    rewrite zip3_back by done.
    rewrite start_stop_fold_plus. rewrite start_stop_fold_minus by done.
    rewrite !fold_pick_mirror_start; [done| |];
      intros t1 t2 H1 H2 Hi1 Hi2; by eapply triples_back_coherent.
Qed.

Lemma strand_symmetry_witness :
  ∃ tx tx',
    build_transcript minus_line = Ok tx
    ∧ build_transcript (mirror_line 1000 minus_line) = Ok tx'
    ∧ Transcript.trans_starts tx' = reverse (Transcript.trans_starts tx)
    ∧ Transcript.trans_ends tx' = reverse (Transcript.trans_ends tx)
    ∧ Transcript.type tx' = Transcript.type tx
    ∧ Transcript.ctis tx' = Transcript.ctis tx
    ∧ Transcript.stop tx' = Transcript.stop tx.
Proof.
  apply (strand_symmetry 1000 minus_line).
  - right. reflexivity.
  - reflexivity.
Defined.
